(** * nlxdftools.nlxdf: stream identity resolution and remapping

    A shallow embedding of [src/nlxdftools/nlxdf.py] (class [NlXdf]) and the
    properties its specification states about it.

    Modelling conventions.
    - Python [str] values are [String.string]; [str.lower] and string
      comparison are the ASCII ones (characters above 127 are left alone by
      [lower] and ordered by their code).
    - The integer index label of a metadata row ([row.name], the stream id)
      is a [Z]; [str(int)] is the decimal numeral of the Standard Library.
      The cells of the columns the classifier reads are strings.
    - A Python [dict] used as a lookup table or as a [Counter] is a
      [gmap string _]; a [dict] or a [DataFrame] whose order matters is an
      association list in insertion (row) order.
    - A Python exception is a value of [exn]; a function that may raise
      returns a [result].
    - Where a property is about what one call leaves behind for the next,
      the mutable object is kept in a store that the calls thread
      ([Store]). *)

From Stdlib Require Import ZArith List Ascii String Decimal DecimalString.
From Stdlib Require Import DecimalNat DecimalPos DecimalZ.
From Stdlib Require Import Sorting.Sorted Permutation.
From stdpp Require Import base option list strings gmap sorting.

Local Open Scope Z_scope.

(** String concatenation unfolds on literal prefixes in the proofs below. *)
Local Arguments String.append !_ _ : simpl nomatch.

(** ** Exceptions and results *)

Inductive exn : Type :=
  | KeyError (key : string)
  | IndexError
  | ValueError
  | NoLoadableStreamsError (msg : string)
  | XdfAlreadyLoadedError (msg : string)
  | OtherError (msg : string).

Inductive result (A : Type) : Type :=
  | Ok (a : A)
  | Raise (e : exn).
Arguments Ok {A} a.
Arguments Raise {A} e.

(** Sequencing: the first exception raised ends the computation. *)
Global Instance result_ret : MRet result := λ A a, Ok a.

Global Instance result_bind : MBind result := λ A B k r,
  match r with
  | Ok a => k a
  | Raise e => Raise e
  end.

Global Instance exn_eq_dec : EqDecision exn.
Proof. solve_decision. Defined.

Global Instance result_eq_dec {A} `{EqDecision A} : EqDecision (result A).
Proof. solve_decision. Defined.

(** ** Python string primitives *)

Module Py.

(** [str(n)] for a count and for an integer index label. *)
Definition str_nat (n : nat) : string :=
  NilEmpty.string_of_uint (Nat.to_uint n).

Definition str (z : Z) : string :=
  NilEmpty.string_of_int (Z.to_int z).

(** [c.lower()] on one ASCII character: 'A'..'Z' move to 'a'..'z'. *)
Definition lower_ascii (c : ascii) : ascii :=
  let n := nat_of_ascii c in
  if ((65 <=? n) && (n <=? 90))%nat then ascii_of_nat (n + 32) else c.

Fixpoint lower (s : string) : string :=
  match s with
  | EmptyString => EmptyString
  | String c s' => String (lower_ascii c) (lower s')
  end.

(** [s.startswith(p)] *)
Definition startswith (s p : string) : bool := String.prefix p s.

(** [a == b] on strings *)
Definition eqs (a b : string) : bool := String.eqb a b.

(** [a <= b] on strings: lexicographic by character code. *)
Definition le (a b : string) : Prop := String.leb a b = true.

End Py.

(** ** Static configuration (class attributes of [NlXdf]) *)

Definition hostname_device_entries : list (string * string) :=
  [ ("DESKTOP-3R7C1PH", "eeg-a");
    ("DESKTOP-2TI6RBU", "eeg-b");
    ("DESKTOP-MN7K6RM", "eeg-c");
    ("DESKTOP-URRV98M", "eeg-d");
    ("DESKTOP-DATOEVU", "eeg-e");
    ("TABLET-9I44R1AR", "eeg-f");
    ("DESKTOP-SLAKFQE", "eeg-g");
    ("DESKTOP-6FJTJJN", "eeg-h");
    ("DESKTOP-HDOESKS", "eeg-i");
    ("DESKTOP-LIA3G09", "eeg-j");
    ("DESKTOP-V6779I4", "eeg-k");
    ("DESKTOP-PLV2A7L", "eeg-l");
    ("DESKTOP-SSSOE1L", "eeg-m");
    ("DESKTOP-RM16J67", "eeg-n");
    ("DESKTOP-N2RA68S", "eeg-o");
    ("DESKTOP-S597Q21", "eeg-p");
    ("TABLET-06K1PLD4", "eeg-q");
    ("DESKTOP-MK0GQFM", "eeg-r");
    ("DESKTOP-7GV3RJU", "eeg-s");
    ("DESKTOP-S5A1PPK", "eeg-t");
    ("TABLET-3BS4NTP2", "eeg-u");
    ("DESKTOP-QG4CNEV", "eeg-v");
    ("DESKTOP-OAF4OCM", "eeg-w");
    ("TABLET-47TCFCEB", "eeg-cs-v");
    ("CGS-PCD-26098", "tabarnak");
    ("CGS-PCL-38928", "laura");
    ("cgs-macl-39034.campus.goldsmiths.ac.uk", "mirko");
    ("kassia", "jamief") ]%string.

Definition hostname_device_mapper : gmap string string :=
  list_to_map hostname_device_entries.

(** [metadata_mapper]: one rewrite table per column. *)
Definition metadata_type_entries : list (string * string) :=
  [ ("EEG", "eeg") ]%string.

Definition metadata_mapper : list (string * gmap string string) :=
  [ ("type", list_to_map metadata_type_entries) ]%string.

Definition channel_label_entries : list (string * string) :=
  [ ("0", "Fp1"); ("1", "Fpz"); ("2", "Fp2"); ("3", "F7"); ("4", "F3");
    ("5", "Fz"); ("6", "F4"); ("7", "F8"); ("8", "FC5"); ("9", "FC1");
    ("10", "FC2"); ("11", "FC6"); ("12", "M1"); ("13", "T7"); ("14", "C3");
    ("15", "Cz"); ("16", "C4"); ("17", "T8"); ("18", "M2"); ("19", "CP5");
    ("20", "CP1"); ("21", "CP2"); ("22", "CP6"); ("23", "P7"); ("24", "P3");
    ("25", "Pz"); ("26", "P4"); ("27", "P8"); ("28", "POz"); ("29", "O1");
    ("30", "Oz"); ("31", "O2"); ("32", "Resp"); ("67", "CPz");
    ("33", "trigger"); ("34", "counter") ]%string.

Definition channel_type_entries : list (string * string) :=
  [ ("ref", "eeg"); ("aux", "misc"); ("bip", "misc"); ("trigger", "misc");
    ("counter", "misc"); ("trg", "stim") ]%string.

Definition channel_metadata_mapper : list (string * gmap string string) :=
  [ ("label", list_to_map channel_label_entries);
    ("type", list_to_map channel_type_entries) ]%string.

(** ** The metadata table handed to the classifier *)

(** One row of the stream metadata [DataFrame]: [stream_id] is the index
    label ([row.name] in Python), the other fields are the columns the
    classifier reads. *)
Record Row : Type := mkRow {
  stream_id : Z;
  type : string;
  name : string;
  hostname : string;
  source_id : string;
}.

Global Instance Row_eq_dec : EqDecision Row.
Proof. solve_decision. Defined.

Abbreviation DataFrame := (list Row).

(** [collections.Counter] keyed by strings: a missing key counts 0. *)
Abbreviation Counter := (gmap string nat).

Definition counter_get (c : Counter) (k : string) : nat :=
  default 0%nat (c !! k).

(** [counter.update([k])] *)
Definition counter_update (c : Counter) (k : string) : Counter :=
  <[k := S (counter_get c k)]> c.

(** ** [_create_nl_ids] *)

(** Lines 203-236 of [make_nl_id]: the if/elif chain that picks the id before
    the occurrence counter is consulted.  The only statement that can raise
    is the subscript [hostname_map[row['hostname']]] of the EEG branch. *)
Definition base_id (hostname_map : gmap string string) (row : Row)
  : result string :=
  let nl_id := Py.str (stream_id row) in
  if Py.eqs (Py.lower (type row)) "eeg" then
    match hostname_map !! hostname row with
    | Some dev => Ok dev
    | None => Raise (KeyError (hostname row))
    end
  else if Py.eqs (name row) "TimestampStream" then Ok "ts-marker"%string
  else if Py.eqs (name row) "CameraRecordingTime" then Ok "ts-video"%string
  else if Py.eqs (type row) "marker" && Py.eqs (name row) "audio" then
    Ok "ts-audio"%string
  else if Py.startswith (Py.lower (name row)) "pupil" then
    if Py.eqs (Py.lower (type row)) "event" then
      Ok ("pl-" +:+ source_id row +:+ "-event")
    else if Py.eqs (Py.lower (type row)) "gaze" then
      Ok ("pl-" +:+ source_id row +:+ "-gaze")
    else Ok nl_id
  else if Py.eqs (type row) "data" && Py.startswith (name row) "Test" then
    if Py.eqs (hostname row) "neurolive" || Py.eqs (hostname row) "bobby" then
      Ok "test-ref"%string
    else
      match hostname_map !! hostname row with
      | Some dev => Ok ("test-" +:+ dev)
      | None => Ok "test"%string
      end
  else if Py.eqs (type row) "control" then Ok "test-ctrl"%string
  else if Py.eqs (Py.lower (type row)) "markers" then Ok (nl_id +:+ "-markers")
  else if Py.startswith (name row) "_relay_" then Ok (nl_id +:+ "-relay")
  else Ok nl_id.

(** Lines 237-240: count the id, and suffix it from the second occurrence. *)
Definition count_and_suffix (nl_id : string) (unique_id_counter : Counter)
  : string * Counter :=
  let unique_id_counter := counter_update unique_id_counter nl_id in
  if (1 <? counter_get unique_id_counter nl_id)%nat then
    (nl_id +:+ "-" +:+ Py.str_nat (counter_get unique_id_counter nl_id),
     unique_id_counter)
  else (nl_id, unique_id_counter).

Definition make_nl_id (row : Row) (unique_id_counter : Counter)
    (hostname_map : gmap string string) : result (string * Counter) :=
  nl_id ← base_id hostname_map row ;
  Ok (count_and_suffix nl_id unique_id_counter).

(** [df.apply(make_nl_id, axis='columns', ...)]: one call per row, in row
    order, all calls sharing the one counter object. *)
Fixpoint apply_rows (hostname_map : gmap string string)
    (unique_id_counter : Counter) (df : DataFrame)
  : result (list string * Counter) :=
  match df with
  | [] => Ok ([], unique_id_counter)
  | row :: rest =>
      r ← make_nl_id row unique_id_counter hostname_map ;
      rs ← apply_rows hostname_map r.2 rest ;
      Ok (r.1 :: rs.1, rs.2)
  end.

Definition _create_nl_ids (df : DataFrame) : result (list string) :=
  let unique_id_counter : Counter := ∅ in
  r ← apply_rows hostname_device_mapper unique_id_counter df ;
  Ok r.1.

(** ** Normalisation: [_parse_metadata] and [_parse_channel_metadata] *)

(** [df['type'] = df['type'].str.lower()] *)
Definition lower_types (df : DataFrame) : DataFrame :=
  map (λ row, mkRow (stream_id row) (Py.lower (type row)) (name row)
                    (hostname row) (source_id row)) df.

(** One cell under [replace] with the table of its column: an exact match is
    substituted, anything else is kept. *)
Definition replace_value (table : gmap string string) (v : string) : string :=
  default v (table !! v).

(** The rewrite table [replace] uses for column [col], if the nested dict
    has one. *)
Fixpoint column_table (mapper : list (string * gmap string string))
    (col : string) : option (gmap string string) :=
  match mapper with
  | [] => None
  | (c, table) :: rest =>
      if Py.eqs c col then Some table else column_table rest col
  end.

Definition replace_cell (mapper : list (string * gmap string string))
    (col v : string) : string :=
  match column_table mapper col with
  | Some table => replace_value table v
  | None => v
  end.

(** [df.replace(mapper, inplace=True)] on the metadata table. *)
Definition df_replace (mapper : list (string * gmap string string))
    (df : DataFrame) : DataFrame :=
  map (λ row, mkRow (stream_id row)
                    (replace_cell mapper "type" (type row))
                    (replace_cell mapper "name" (name row))
                    (replace_cell mapper "hostname" (hostname row))
                    (replace_cell mapper "source_id" (source_id row))) df.

(** Lines 167-169 of [_parse_metadata]. *)
Definition normalize_metadata (df : DataFrame) : DataFrame :=
  df_replace metadata_mapper (lower_types df).

(** A per-stream channel table: its columns in order, each a name and the
    cells of that column. *)
Abbreviation ChannelFrame := (list (string * list string)).

(** ['col' in df] *)
Definition has_column (col : string) (df : ChannelFrame) : bool :=
  existsb (λ c, Py.eqs c.1 col) df.

(** [df['col']] for a column that is present. *)
Fixpoint get_column (col : string) (df : ChannelFrame) : list string :=
  match df with
  | [] => []
  | (c, cells) :: rest => if Py.eqs c col then cells else get_column col rest
  end.

(** [df.replace(mapper, inplace=True)] on a channel table. *)
Definition frame_replace (mapper : list (string * gmap string string))
    (df : ChannelFrame) : ChannelFrame :=
  map (λ c, (c.1, map (replace_cell mapper c.1) c.2)) df.

(** Lines 191-192: a table with an index column and no label column gets
    the index as its labels (a new last column). *)
Definition label_from_index (df : ChannelFrame) : ChannelFrame :=
  if has_column "index" df && negb (has_column "label" df)
  then df ++ [("label"%string, get_column "index" df)]
  else df.

(** The body of the loop of [_parse_channel_metadata], lines 191-194. *)
Definition normalize_channel_frame (df : ChannelFrame) : ChannelFrame :=
  frame_replace channel_metadata_mapper (label_from_index df).

(** [_parse_channel_metadata], applied to what the parent class returns:
    [None] or a dict from stream id to channel table. *)
Definition _parse_channel_metadata (data : option (list (Z * ChannelFrame)))
  : option (list (Z * ChannelFrame)) :=
  match data with
  | None => None
  | Some d => Some (map (λ e, (e.1, normalize_channel_frame e.2)) d)
  end.

(** ** Sorting by id

    [list.sort()], [sorted(...)] and [sort_index()] are modelled by one merge
    sort on the order of the ids.  [sorted(data.items())] compares
    (key, payload) pairs, but the keys of a dict are distinct, so the order
    of the keys decides every comparison. *)

Global Instance Py_le_dec : RelDecision Py.le.
Proof. intros a b. unfold Py.le. apply _. Defined.

(** Order on keyed entries: by key. *)
Definition key_le {V : Type} (a b : string * V) : Prop := Py.le a.1 b.1.

Global Instance key_le_dec {V : Type} : RelDecision (@key_le V).
Proof. intros a b. unfold key_le. apply _. Defined.

(** ** The resolved metadata table *)

(** The table indexed by [nl_id]: each entry is the index label and the row,
    whose [stream_id] is now an ordinary column. *)
Abbreviation Metadata := (list (string * Row)).

(** What [_parse_metadata] and [resolve_streams] return: the table re-indexed
    by [nl_id] and sorted, or the table in its original order with [nl_id]
    moved to the first column. *)
Inductive ResolvedTable : Type :=
  | IndexedByNlId (t : Metadata)
  | NlIdColumn (t : list (string * Row)).

(** Lines 115-127 and 171-183 (the same code in both methods).
    [df['nl_id'] = nl_ids]: for a table with no rows [df.apply] hands back
    an empty DataFrame, not a Series of ids, and assigning it to the one
    column raises [ValueError].
    [set_index(..., verify_integrity=True)] raises [ValueError] on a
    duplicate label. *)
Definition attach_nl_ids (df : DataFrame) (nl_ids : list string)
    (nl_id_as_index : bool) : result ResolvedTable :=
  match df with
  | [] => Raise ValueError
  | _ :: _ =>
      let t := zip nl_ids df in
      if nl_id_as_index then
        if decide (NoDup nl_ids) then Ok (IndexedByNlId (merge_sort key_le t))
        else Raise ValueError
      else Ok (NlIdColumn t)
  end.

(** [_parse_metadata]; [df] stands for the table the parent class parsed. *)
Definition _parse_metadata (df : DataFrame) (nl_id_as_index : bool)
  : result ResolvedTable :=
  let df := lower_types df in
  let df := df_replace metadata_mapper df in
  nl_ids ← _create_nl_ids df;
  attach_nl_ids df nl_ids nl_id_as_index.

(** [resolve_streams]; [df] stands for the table the parent class resolved. *)
Definition resolve_streams (df : DataFrame) (nl_id_as_index : bool)
  : result ResolvedTable :=
  nl_ids ← _create_nl_ids df;
  attach_nl_ids df nl_ids nl_id_as_index.

(** ** [_map_stream_ids] *)

(** [self._metadata.index[self._metadata['stream_id'] == stream_id][0]]:
    the label of the first row carrying that stream id; subscripting the
    empty selection raises [IndexError]. *)
Definition _stream_id_to_nl_id (_metadata : Metadata) (sid : Z)
  : result string :=
  match filter (λ r, stream_id r.2 = sid) _metadata with
  | r :: _ => Ok r.1
  | [] => Raise IndexError
  end.

(** The values [_map_stream_ids] tells apart, with keys of type [K]. *)
Inductive Collection (K V : Type) : Type :=
  | PyNone
  | PyList (l : list K)
  | PyDict (d : list (K * V))
  | PyFrame (t : list (K * V))
  | PyOther (v : V).
Arguments PyNone {K V}.
Arguments PyList {K V} l.
Arguments PyDict {K V} d.
Arguments PyFrame {K V} t.
Arguments PyOther {K V} v.

(** [[f(x) for x in l]] where [f] may raise. *)
Fixpoint list_comprehension {A B} (f : A → result B) (l : list A)
  : result (list B) :=
  match l with
  | [] => Ok []
  | x :: rest =>
      y ← f x;
      ys ← list_comprehension f rest;
      Ok (y :: ys)
  end.

(** [d[k] = v] on an insertion-ordered dict: an existing key keeps its
    place and takes the new value, a new key goes last. *)
Fixpoint dict_set {V} (d : list (string * V)) (k : string) (v : V)
  : list (string * V) :=
  match d with
  | [] => [(k, v)]
  | e :: rest =>
      if decide (e.1 = k) then (k, v) :: rest else e :: dict_set rest k v
  end.

(** [{f(k): v for k, v in items}], building on the entries [acc]. *)
Fixpoint dict_comprehension {K V} (f : K → result string)
    (items : list (K * V)) (acc : list (string * V))
  : result (list (string * V)) :=
  match items with
  | [] => Ok acc
  | e :: rest =>
      k ← f e.1;
      dict_comprehension f rest (dict_set acc k e.2)
  end.

Definition _map_stream_ids {V} (_metadata : Metadata)
    (data : Collection Z V) : result (Collection string V) :=
  match data with
  | PyNone => Ok PyNone
  | PyList l =>
      data ← list_comprehension (_stream_id_to_nl_id _metadata) l;
      Ok (PyList (merge_sort Py.le data))
  | PyDict d =>
      data ← dict_comprehension (_stream_id_to_nl_id _metadata) d [];
      Ok (PyDict (merge_sort key_le data))
  | PyFrame t =>
      index ← list_comprehension (_stream_id_to_nl_id _metadata) t.*1;
      Ok (PyFrame (merge_sort key_le (zip index t.*2)))
  | PyOther v => Ok (PyOther v)
  end.

(** ** [load] *)

(** The attributes of the session object that [load] touches. *)
Record Xdf (K V : Type) : Type := mkXdf {
  _metadata : Metadata;
  _loaded_stream_ids : Collection K V;
  _channel_metadata : Collection K V;
  _footer : Collection K V;
  _clock_offsets : Collection K V;
  _time_series : Collection K V;
  _time_stamps : Collection K V;
}.
Arguments mkXdf {K V}.
Arguments _metadata {K V}.
Arguments _loaded_stream_ids {K V}.
Arguments _channel_metadata {K V}.
Arguments _footer {K V}.
Arguments _clock_offsets {K V}.
Arguments _time_series {K V}.
Arguments _time_stamps {K V}.

(** The arguments [load] hands on to the loader unchanged. *)
Record LoadArgs : Type := mkLoadArgs {
  select_streams : list string;
  channel_scale_field : string;
  channel_name_field : string;
  synchronize_clocks : bool;
  dejitter_timestamps : bool;
  handle_clock_resets : bool;
}.

(** What the call [self._load(...)] of the parent class does to the object:
    it returns, leaving collections keyed by stream id, or it raises,
    leaving the object in some state keyed as before. *)
Inductive Loaded (V : Type) : Type :=
  | LoadReturns (self : Xdf Z V)
  | LoadRaises (e : exn) (self : Xdf string V).
Arguments LoadReturns {V} self.
Arguments LoadRaises {V} e self.

(** What a call of [load] does: it returns [self], having printed some
    exceptions, or an exception leaves it. *)
Inductive LoadResult (V : Type) : Type :=
  | Returns (self : Xdf string V) (printed : list exn)
  | Raises (e : exn).
Arguments Returns {V} self printed.
Arguments Raises {V} e.

(** Lines 155-160: the six collections, remapped one after the other. *)
Definition remap_all {V} (self : Xdf Z V) : result (Xdf string V) :=
  ids ← _map_stream_ids (_metadata self) (_loaded_stream_ids self);
  cm ← _map_stream_ids (_metadata self) (_channel_metadata self);
  ft ← _map_stream_ids (_metadata self) (_footer self);
  co ← _map_stream_ids (_metadata self) (_clock_offsets self);
  ts ← _map_stream_ids (_metadata self) (_time_series self);
  tt ← _map_stream_ids (_metadata self) (_time_stamps self);
  Ok (mkXdf (_metadata self) ids cm ft co ts tt).

Definition load {V} (_load : Xdf string V → LoadArgs → Loaded V)
    (self : Xdf string V) (args : LoadArgs) : LoadResult V :=
  match _load self args with
  | LoadRaises (NoLoadableStreamsError msg) self' =>
      Returns self' [NoLoadableStreamsError msg]
  | LoadRaises (XdfAlreadyLoadedError msg) self' =>
      Returns self' [XdfAlreadyLoadedError msg]
  | LoadRaises e _ => Raises e
  | LoadReturns self' =>
      match remap_all self' with
      | Ok self'' => Returns self'' []
      | Raise e => Raises e
      end
  end.

(** ** Auxiliary notions used in the statements *)

Definition is_digit (c : ascii) : bool :=
  let n := nat_of_ascii c in ((48 <=? n) && (n <=? 57))%nat.

Fixpoint all_digits (s : string) : bool :=
  match s with
  | EmptyString => true
  | String c s' => is_digit c && all_digits s'
  end.

Fixpoint last_is_digit (s : string) : bool :=
  match s with
  | EmptyString => false
  | String c EmptyString => is_digit c
  | String _ s' => last_is_digit s'
  end.

(** The shape shared by every id the rule chain can produce: not empty, and
    either not ending in a digit or the numeral of an integer. *)
Definition base_ok (b : string) : Prop :=
  b ≠ EmptyString ∧ (last_is_digit b = false ∨ ∃ z : Z, b = Py.str z).

(** Device names of the table are not empty and do not end in a digit. *)
Definition device_name_ok (e : string * string) : bool :=
  negb (Py.eqs e.2 EmptyString) && negb (last_is_digit e.2).

(** The id a stream gets when it is the [n]-th one reducing to base id [b]. *)
Definition suffixed (b : string) (n : nat) : string :=
  if (1 <? n)%nat then b +:+ "-" +:+ Py.str_nat n else b.

(** Number of rows of [df] whose rule match reduces to base id [b]. *)
Definition occurrences (hostname_map : gmap string string) (b : string)
    (df : DataFrame) : nat :=
  length (filter (λ row, base_id hostname_map row = Ok b) df).

(** The ids a collection is keyed by, in order. *)
Definition keys {K V} (data : Collection K V) : list K :=
  match data with
  | PyList l => l
  | PyDict d => d.*1
  | PyFrame t => t.*1
  | PyNone | PyOther _ => []
  end.

(** The entries of a collection: each key with the payload stored under it
    (a list entry has none). *)
Definition entries {K V} (data : Collection K V) : list (K * option V) :=
  match data with
  | PyList l => (λ k, (k, None)) <$> l
  | PyDict d => (λ e, (e.1, Some e.2)) <$> d
  | PyFrame t => (λ e, (e.1, Some e.2)) <$> t
  | PyNone | PyOther _ => []
  end.

(** A collection is in ascending order of its ids. *)
Definition ordered_by_nl_id {V} (data : Collection string V) : Prop :=
  StronglySorted Py.le (keys data).

(** The two exceptions of the loader that [load] handles. *)
Definition recoverable (e : exn) : bool :=
  match e with
  | NoLoadableStreamsError _ | XdfAlreadyLoadedError _ => true
  | _ => false
  end.

(** The six collections [load] remaps. *)
Definition stream_collections {K V} (self : Xdf K V) : list (Collection K V) :=
  [ _loaded_stream_ids self; _channel_metadata self; _footer self;
    _clock_offsets self; _time_series self; _time_stamps self ].

(** ** [_create_nl_ids] with the counter as an object in the store

    [unique_id_counter = Counter()] creates an object, and [make_nl_id]
    updates it in place through the reference [df.apply] hands to every
    call.  Here the objects live in a store that is threaded through the
    calls and survives them, so that what one run leaves behind is there
    for the next run to see. *)
Module Store.

(** The [Counter] objects that exist, by address. *)
Abbreviation Heap := (gmap positive Counter).

(** The object a reference points to. *)
Definition deref (h : Heap) (ref : positive) : Counter :=
  default ∅ (h !! ref).

(** [Counter()]: a new, empty object at an address not in use. *)
Definition new_counter (h : Heap) : positive * Heap :=
  let ref := fresh (dom h) in (ref, <[ref := ∅]> h).

(** [make_nl_id], lines 201-240, with [unique_id_counter] a reference. *)
Definition make_nl_id (row : Row) (unique_id_counter : positive)
    (hostname_map : gmap string string) (h : Heap) : result string * Heap :=
  match base_id hostname_map row with
  | Raise e => (Raise e, h)
  | Ok nl_id =>
      let h := <[unique_id_counter :=
                   counter_update (deref h unique_id_counter) nl_id]> h in
      if (1 <? counter_get (deref h unique_id_counter) nl_id)%nat then
        (Ok (nl_id +:+ "-"
             +:+ Py.str_nat (counter_get (deref h unique_id_counter) nl_id)),
         h)
      else (Ok nl_id, h)
  end.

(** [df.apply(make_nl_id, axis='columns', unique_id_counter=..., ...)] *)
Fixpoint apply_rows (hostname_map : gmap string string)
    (unique_id_counter : positive) (df : DataFrame) (h : Heap)
  : result (list string) * Heap :=
  match df with
  | [] => (Ok [], h)
  | row :: rest =>
      match make_nl_id row unique_id_counter hostname_map h with
      | (Raise e, h) => (Raise e, h)
      | (Ok nl_id, h) =>
          match apply_rows hostname_map unique_id_counter rest h with
          | (Raise e, h) => (Raise e, h)
          | (Ok nl_ids, h) => (Ok (nl_id :: nl_ids), h)
          end
      end
  end.

(** [_create_nl_ids], lines 197-248. *)
Definition _create_nl_ids (df : DataFrame) (h : Heap)
  : result (list string) * Heap :=
  let '(unique_id_counter, h) := new_counter h in
  apply_rows hostname_device_mapper unique_id_counter df h.

End Store.

(** A rewrite table never rewrites what it has written: no value of the
    table is one of its keys. *)
Definition table_stable (table_entries : list (string * string)) : bool :=
  forallb (λ e, bool_decide
                  ((list_to_map table_entries : gmap string string) !! e.2
                   = None))
          table_entries.

(** An EEG-typed row whose host is not a key of the device table: the rows
    on which the rule chain raises. *)
Definition unmapped_eeg (hostname_map : gmap string string) (row : Row)
  : Prop :=
  Py.lower (type row) = "eeg" ∧ hostname_map !! hostname row = None.

Global Instance unmapped_eeg_dec hostname_map row :
  Decision (unmapped_eeg hostname_map row).
Proof. unfold unmapped_eeg. apply _. Defined.

(** A type whose spelling does not matter to the rules that compare it
    exactly: it is in lower case already, or it is not a spelling of
    'marker', 'data' or 'control'. *)
Definition type_case_safe (row : Row) : Prop :=
  type row = Py.lower (type row) ∨
  (Py.lower (type row) ≠ "marker" ∧ Py.lower (type row) ≠ "data" ∧
   Py.lower (type row) ≠ "control").

(** A string that begins like the numeral of an integer: with a digit or
    with a minus sign. *)
Definition starts_numeric (s : string) : bool :=
  match s with
  | EmptyString => false
  | String c _ => is_digit c || Ascii.eqb c "-"
  end.

(** A string that does not continue a numeral: it is empty or begins with
    a character that is not a digit. *)
Definition head_not_digit (s : string) : bool :=
  match s with
  | EmptyString => true
  | String c _ => negb (is_digit c)
  end.

(** The base ids that are built from the stream id of the row itself: the
    results of the default, the 'markers' and the '_relay_' rule. *)
Definition id_keyed_base (row : Row) (b : string) : Prop :=
  b = Py.str (stream_id row) ∨
  b = Py.str (stream_id row) +:+ "-markers" ∨
  b = Py.str (stream_id row) +:+ "-relay".

(** * Properties *)

(** ** Strings: digits, last characters and the dash separator *)

Lemma append_eq_nil (s t : string) : s +:+ t = EmptyString → s = EmptyString ∧ t = EmptyString.
Proof. destruct s; simpl; [done | discriminate]. Qed.

Lemma last_is_digit_app (s t : string) :
  t ≠ EmptyString → last_is_digit (s +:+ t) = last_is_digit t.
Proof.
  intros Ht. induction s as [|c s IH]; simpl; [done|].
  rewrite IH. destruct (s +:+ t) eqn:E; [|done].
  apply append_eq_nil in E as [_ ?]. done.
Qed.

Lemma all_digits_last (s : string) :
  s ≠ EmptyString → all_digits s = true → last_is_digit s = true.
Proof.
  induction s as [|c s IH]; [done|]. intros _ [Hc Hs]%andb_prop.
  destruct s as [|c' s']; [done|]. apply IH; done.
Qed.

Lemma all_digits_app_dash (s t : string) : all_digits (s +:+ "-" +:+ t) = false.
Proof.
  induction s as [|c s IH]; [done|].
  change (is_digit c && all_digits (s +:+ "-" +:+ t) = false).
  rewrite IH. apply andb_false_r.
Qed.

Lemma all_digits_uint (d : uint) : all_digits (NilEmpty.string_of_uint d) = true.
Proof. induction d; simpl; done. Qed.

Lemma str_nat_digits (n : nat) : all_digits (Py.str_nat n) = true.
Proof. apply all_digits_uint. Qed.

Lemma string_of_uint_nonnil (d : uint) :
  d ≠ Nil → NilEmpty.string_of_uint d ≠ EmptyString.
Proof. destruct d; simpl; [done | discriminate..]. Qed.

Lemma str_nat_nonempty (n : nat) : Py.str_nat n ≠ EmptyString.
Proof.
  apply string_of_uint_nonnil. intros E.
  pose proof (DecimalNat.Unsigned.of_to n) as H. rewrite E in H.
  subst n. discriminate E.
Qed.

Lemma str_nat_inj (n m : nat) : Py.str_nat n = Py.str_nat m → n = m.
Proof.
  intros E. apply DecimalNat.Unsigned.to_uint_inj.
  pose proof (NilEmpty.usu (Nat.to_uint n)) as H1.
  pose proof (NilEmpty.usu (Nat.to_uint m)) as H2.
  unfold Py.str_nat in E. rewrite E in H1. congruence.
Qed.

(** The text after the last dash determines the split. *)
Lemma dash_split_inj (s1 s2 d1 d2 : string) :
  all_digits d1 = true → all_digits d2 = true →
  s1 +:+ "-" +:+ d1 = s2 +:+ "-" +:+ d2 → s1 = s2 ∧ d1 = d2.
Proof.
  intros H1 H2. revert s2.
  induction s1 as [|c s1 IH]; intros [|c' s2]; simpl; intros E.
  - by injection E.
  - injection E as _ E. pose proof (all_digits_app_dash s2 d2).
    simpl in *. congruence.
  - injection E as _ E. pose proof (all_digits_app_dash s1 d1).
    simpl in *. congruence.
  - injection E as -> E. apply IH in E as [-> ->]. done.
Qed.

Lemma str_nonempty (z : Z) : Py.str z ≠ EmptyString.
Proof.
  destruct z as [|p|p]; [done| |done].
  apply string_of_uint_nonnil, DecimalPos.Unsigned.to_uint_nonnil.
Qed.

Lemma base_ok_str (z : Z) : base_ok (Py.str z).
Proof. split; [apply str_nonempty | right; by exists z]. Qed.

Lemma base_ok_suffix (s t : string) :
  t ≠ EmptyString → last_is_digit t = false → base_ok (s +:+ t).
Proof.
  intros Ht Hl. split.
  - intros [_ ?]%append_eq_nil. done.
  - left. by rewrite last_is_digit_app.
Qed.

(** A bare id never reads as another id followed by a collision suffix. *)
Lemma bare_ne_suffixed (b B : string) (k : nat) :
  base_ok b → B ≠ EmptyString → b ≠ B +:+ "-" +:+ Py.str_nat k.
Proof.
  intros [_ [Hl | [z ->]]] HB E.
  - rewrite E in Hl.
    rewrite last_is_digit_app in Hl by (destruct (Py.str_nat k); done).
    change ("-" +:+ Py.str_nat k) with (String "-" (Py.str_nat k)) in Hl.
    simpl in Hl. pose proof (str_nat_nonempty k) as Hne.
    destruct (Py.str_nat k) eqn:Ek; [done|].
    rewrite <-Ek in Hl.
    rewrite all_digits_last in Hl; [done | by rewrite Ek | apply str_nat_digits].
  - destruct z as [|p|p]; unfold Py.str in E; simpl in E.
    + destruct B as [|c B]; [done|]. simpl in E. injection E as _ E.
      destruct B; discriminate E.
    + pose proof (all_digits_uint (Pos.to_uint p)) as Hd.
      pose proof (all_digits_app_dash B (Py.str_nat k)).
      simpl in *. congruence.
    + destruct B as [|c B]; [done|]. simpl in E. injection E as _ E.
      pose proof (all_digits_uint (Pos.to_uint p)) as Hd.
      pose proof (all_digits_app_dash B (Py.str_nat k)).
      simpl in *. congruence.
Qed.

Lemma hostname_device_names_ok :
  forallb device_name_ok hostname_device_entries = true.
Proof. vm_compute. reflexivity. Qed.

Lemma hostname_lookup_ok (h dev : string) :
  hostname_device_mapper !! h = Some dev →
  dev ≠ EmptyString ∧ last_is_digit dev = false.
Proof.
  intros H. apply elem_of_list_to_map_2 in H.
  pose proof hostname_device_names_ok as Hall.
  rewrite forallb_forall in Hall.
  apply list_elem_of_In, Hall in H.
  unfold device_name_ok in H. apply andb_prop in H as [H1 H2].
  apply negb_true_iff in H1, H2. split; [|done].
  intros ->. done.
Qed.

Lemma base_id_ok (row : Row) (b : string) :
  base_id hostname_device_mapper row = Ok b → base_ok b.
Proof.
  unfold base_id. intros H.
  repeat match type of H with
  | (if ?c then _ else _) = _ => destruct c
  | match ?o with Some _ => _ | None => _ end = _ => destruct o eqn:?
  end;
  try discriminate H; injection H as <-;
  try apply base_ok_str;
  try (by apply (base_ok_suffix EmptyString)).
  - apply hostname_lookup_ok in Heqo as [? ?]. by apply (base_ok_suffix EmptyString).
  - apply (base_ok_suffix "pl-");
      [intros [_ ?]%append_eq_nil; done | by rewrite last_is_digit_app].
  - apply (base_ok_suffix "pl-");
      [intros [_ ?]%append_eq_nil; done | by rewrite last_is_digit_app].
  - apply hostname_lookup_ok in Heqo as [? ?]. by apply (base_ok_suffix "test-").
  - by apply base_ok_suffix.
  - by apply base_ok_suffix.
Qed.

(** ** The occurrence counter *)

Lemma counter_get_empty (k : string) : counter_get ∅ k = 0%nat.
Proof. unfold counter_get. by rewrite lookup_empty. Qed.

Lemma counter_get_update_eq (c : Counter) (k : string) :
  counter_get (counter_update c k) k = S (counter_get c k).
Proof. unfold counter_update, counter_get at 1. by rewrite lookup_insert_eq. Qed.

Lemma counter_get_update_ne (c : Counter) (k k' : string) :
  k ≠ k' → counter_get (counter_update c k) k' = counter_get c k'.
Proof.
  intros Hne. unfold counter_update, counter_get at 1.
  by rewrite lookup_insert_ne.
Qed.

Lemma count_and_suffix_eq (b : string) (c : Counter) :
  count_and_suffix b c = (suffixed b (S (counter_get c b)), counter_update c b).
Proof.
  unfold count_and_suffix, suffixed. rewrite counter_get_update_eq.
  by destruct (1 <? S (counter_get c b))%nat.
Qed.

Lemma occurrences_cons hm b row df :
  occurrences hm b (row :: df) =
  ((if decide (base_id hm row = Ok b) then 1 else 0) + occurrences hm b df)%nat.
Proof.
  unfold occurrences. rewrite filter_cons. by case_decide.
Qed.

Section apply_rows.
Variable hm : gmap string string.

Lemma apply_rows_cons c row rest ids c' :
  apply_rows hm c (row :: rest) = Ok (ids, c') →
  ∃ b ids',
    base_id hm row = Ok b ∧
    apply_rows hm (counter_update c b) rest = Ok (ids', c') ∧
    ids = suffixed b (S (counter_get c b)) :: ids'.
Proof.
  simpl. unfold make_nl_id.
  destruct (base_id hm row) as [b|e]; simpl; [|discriminate].
  rewrite count_and_suffix_eq. simpl.
  destruct (apply_rows hm (counter_update c b) rest) as [[ids' c'']|e] eqn:E;
    simpl; [|discriminate].
  intros [= <- <-]. by exists b, ids'.
Qed.

Lemma apply_rows_length c df ids c' :
  apply_rows hm c df = Ok (ids, c') → length ids = length df.
Proof.
  revert c ids. induction df as [|row rest IH]; intros c ids H.
  - by injection H as <- _.
  - apply apply_rows_cons in H as (b & ids' & _ & H & ->).
    simpl. f_equal. eauto.
Qed.

Lemma apply_rows_base c df ids c' i row :
  apply_rows hm c df = Ok (ids, c') → df !! i = Some row →
  ∃ b, base_id hm row = Ok b.
Proof.
  revert c ids i. induction df as [|row0 rest IH]; intros c ids i H Hi.
  - done.
  - apply apply_rows_cons in H as (b & ids' & Hb & H & ->).
    destruct i as [|i]; simpl in Hi.
    + injection Hi as <-. eauto.
    + eauto.
Qed.

(** Row [i] gets its base id, suffixed by the number of rows up to and
    including [i] that reduce to the same base id (plus what the counter
    held on entry). *)
Lemma apply_rows_lookup c df ids c' i row b :
  apply_rows hm c df = Ok (ids, c') →
  df !! i = Some row → base_id hm row = Ok b →
  ids !! i =
    Some (suffixed b (counter_get c b + occurrences hm b (take (S i) df))).
Proof.
  revert c ids i. induction df as [|row0 rest IH]; intros c ids i H Hi Hb.
  - done.
  - apply apply_rows_cons in H as (b0 & ids' & Hb0 & H & ->).
    rewrite firstn_cons, occurrences_cons.
    destruct i as [|i]; simpl in Hi.
    + injection Hi as ->. rewrite Hb0 in Hb. injection Hb as ->.
      rewrite Hb0. rewrite decide_True by done.
      simpl. unfold occurrences. simpl.
      do 2 f_equal. lia.
    + simpl. rewrite (IH _ _ _ H Hi Hb). do 2 f_equal.
      case_decide as Hd.
      * assert (b0 = b) as -> by congruence.
        rewrite counter_get_update_eq. lia.
      * rewrite counter_get_update_ne by congruence. lia.
Qed.

(** The rule chain fails on exactly one kind of row. *)
Lemma base_id_raises row e :
  base_id hm row = Raise e →
  Py.lower (type row) = "eeg" ∧ hm !! hostname row = None ∧
  e = KeyError (hostname row).
Proof.
  unfold base_id.
  destruct (Py.eqs (Py.lower (type row)) "eeg") eqn:Heeg.
  - apply String.eqb_eq in Heeg.
    destruct (hm !! hostname row); [discriminate|]. by intros [= <-].
  - intros H.
    repeat match type of H with
    | (if ?c then _ else _) = _ => destruct c
    | match ?o with Some _ => _ | None => _ end = _ => destruct o
    end; discriminate H.
Qed.

Lemma apply_rows_total c df :
  Forall (λ row, Py.lower (type row) = "eeg" →
                 is_Some (hm !! hostname row)) df →
  ∃ ids c', apply_rows hm c df = Ok (ids, c').
Proof.
  intros Hall. revert c. induction Hall as [|row rest Hrow _ IH]; intros c.
  - simpl. eauto.
  - simpl. unfold make_nl_id.
    destruct (base_id hm row) as [b|e] eqn:Hb.
    + simpl. destruct (IH (count_and_suffix b c).2) as (ids & c' & ->).
      simpl. eauto.
    + apply base_id_raises in Hb as (Heeg & Hnone & _).
      apply Hrow in Heeg as [dev Hdev]. congruence.
Qed.
End apply_rows.

Lemma create_nl_ids_inv df ids :
  _create_nl_ids df = Ok ids →
  ∃ c', apply_rows hostname_device_mapper ∅ df = Ok (ids, c').
Proof.
  unfold _create_nl_ids.
  destruct (apply_rows hostname_device_mapper ∅ df) as [[ids' c']|e];
    simpl; [|discriminate].
  intros [= <-]. eauto.
Qed.

(** Classification returns whenever every EEG-typed row names a known host. *)
Lemma create_nl_ids_total df :
  Forall (λ row, Py.lower (type row) = "eeg" →
                 is_Some (hostname_device_mapper !! hostname row)) df →
  ∃ ids, _create_nl_ids df = Ok ids.
Proof.
  intros H. destruct (apply_rows_total hostname_device_mapper ∅ df H)
    as (ids & c' & E).
  exists ids. unfold _create_nl_ids. by rewrite E.
Qed.

(** ** Occurrence counts along the table *)

Lemma occurrences_app hm b (l1 l2 : DataFrame) :
  occurrences hm b (l1 ++ l2) = (occurrences hm b l1 + occurrences hm b l2)%nat.
Proof. unfold occurrences. by rewrite filter_app, length_app. Qed.

Lemma occurrences_take_mono hm b (df : DataFrame) (n m : nat) :
  (n ≤ m)%nat →
  (occurrences hm b (take n df) ≤ occurrences hm b (take m df))%nat.
Proof.
  intros Hnm. rewrite <-(take_drop n (take m df)), occurrences_app.
  rewrite take_take, Nat.min_l by done. lia.
Qed.

Lemma occurrences_take_S hm b (df : DataFrame) (i : nat) (row : Row) :
  df !! i = Some row → base_id hm row = Ok b →
  occurrences hm b (take (S i) df) = S (occurrences hm b (take i df)).
Proof.
  intros Hi Hb. rewrite (take_S_r _ _ _ Hi), occurrences_app.
  rewrite occurrences_cons, decide_True by done.
  unfold occurrences at 2. simpl. lia.
Qed.

(** Two different rows never receive the same id. *)
Lemma nl_ids_distinct_lt df ids c' (i j : nat) (x : string) :
  apply_rows hostname_device_mapper ∅ df = Ok (ids, c') →
  (i < j)%nat → ids !! i = Some x → ids !! j = Some x → False.
Proof.
  intros Hrun Hij Hi Hj.
  pose proof (apply_rows_length _ _ _ _ _ Hrun) as Hlen.
  destruct (lookup_lt_is_Some_2 df i) as [ri Hri];
    [apply lookup_lt_Some in Hi; lia|].
  destruct (lookup_lt_is_Some_2 df j) as [rj Hrj];
    [apply lookup_lt_Some in Hj; lia|].
  destruct (apply_rows_base _ _ _ _ _ _ _ Hrun Hri) as [bi Hbi].
  destruct (apply_rows_base _ _ _ _ _ _ _ Hrun Hrj) as [bj Hbj].
  rewrite (apply_rows_lookup _ _ _ _ _ _ _ _ Hrun Hri Hbi) in Hi.
  rewrite (apply_rows_lookup _ _ _ _ _ _ _ _ Hrun Hrj Hbj) in Hj.
  rewrite counter_get_empty in Hi, Hj. simpl in Hi, Hj.
  pose proof (occurrences_take_S _ _ _ _ _ Hri Hbi) as Hni.
  pose proof (occurrences_take_S _ _ _ _ _ Hrj Hbj) as Hnj.
  pose proof (occurrences_take_mono hostname_device_mapper bj df (S i) j) as Hm.
  pose proof (base_id_ok _ _ Hbi) as Hoki.
  pose proof (base_id_ok _ _ Hbj) as Hokj.
  set (ni := occurrences hostname_device_mapper bi (take (S i) df)) in *.
  set (nj := occurrences hostname_device_mapper bj (take (S j) df)) in *.
  injection Hi as Hi. injection Hj as Hj. subst x.
  unfold suffixed in Hj.
  destruct (1 <? ni)%nat eqn:Ei, (1 <? nj)%nat eqn:Ej.
  - apply dash_split_inj in Hj as [-> Hn]; [|apply str_nat_digits..].
    apply str_nat_inj in Hn. subst ni. lia.
  - by apply (bare_ne_suffixed bj bi ni Hokj (proj1 Hoki)).
  - by apply (bare_ne_suffixed bi bj nj Hoki (proj1 Hokj)).
  - subst bi. apply Nat.ltb_ge in Ej. subst ni. lia.
Qed.

(** ** Classification *)

(** C1 (the code departs from the claim): an EEG-typed row whose hostname
    is not a key of [hostname_device_mapper] makes [make_nl_id] raise
    [KeyError], and the whole classification raises with it; no id is
    assigned to the row. *)
Theorem C1_eeg_unmapped_hostname_raises :
  hostname_device_mapper !! "unknown-host" = None ∧
  make_nl_id (mkRow 3 "eeg" "EEG stream" "unknown-host" EmptyString) ∅
             hostname_device_mapper
    = Raise (KeyError "unknown-host") ∧
  _create_nl_ids [ mkRow 1 "eeg" "EEG stream" "DESKTOP-3R7C1PH" EmptyString;
                   mkRow 3 "eeg" "EEG stream" "unknown-host" EmptyString ]
    = Raise (KeyError "unknown-host").
Proof. repeat split; vm_compute; reflexivity. Qed.

Lemma create_nl_ids_distinct (df : DataFrame) (ids : list string) :
  _create_nl_ids df = Ok ids → length ids = length df ∧ NoDup ids.
Proof.
  intros [c' Hrun]%create_nl_ids_inv. split.
  - by eapply apply_rows_length.
  - apply NoDup_alt. intros i j x Hi Hj.
    destruct (Nat.lt_trichotomy i j) as [Hlt | [-> | Hlt]]; [|done|].
    + destruct (nl_ids_distinct_lt _ _ _ _ _ _ Hrun Hlt Hi Hj).
    + destruct (nl_ids_distinct_lt _ _ _ _ _ _ Hrun Hlt Hj Hi).
Qed.

(** On a table that has rows, [set_index(..., verify_integrity=True)] never
    finds a duplicate among the ids the classifier assigned. *)
Lemma attach_nl_ids_no_ValueError (df : DataFrame) (ids : list string)
    (nl_id_as_index : bool) :
  df ≠ [] →
  _create_nl_ids df = Ok ids →
  ∃ t, attach_nl_ids df ids nl_id_as_index = Ok t.
Proof.
  intros Hne [_ Hnd]%create_nl_ids_distinct. unfold attach_nl_ids.
  destruct df as [|row rest]; [done|].
  destruct nl_id_as_index; [|eauto]. rewrite decide_True by done. eauto.
Qed.

(** C2: every assignment the classification returns for a table of N rows
    has N ids, pairwise distinct, whatever the types, names, hostnames and
    source ids; and the classification does return one for every table
    whose EEG-typed rows all name a host of [hostname_device_mapper]. *)
Theorem C2_nl_ids_unique (df : DataFrame) :
  (∀ ids, _create_nl_ids df = Ok ids →
          length ids = length df ∧ NoDup ids) ∧
  (Forall (λ row, Py.lower (type row) = "eeg" →
                  is_Some (hostname_device_mapper !! hostname row)) df →
   ∃ ids, _create_nl_ids df = Ok ids).
Proof.
  split; [apply create_nl_ids_distinct | apply create_nl_ids_total].
Qed.

Lemma C2_nl_ids_unique_witness :
  let df := [ mkRow 5 "gaze" "pupil left" "h" "123";
              mkRow 9 "gaze" "pupil right" "h" "123";
              mkRow 11 "Markers" "m" "h" "456";
              mkRow 12 "video" "cam" "h" "789" ] in
  let ids := [ "pl-123-gaze"; "pl-123-gaze-2"; "11-markers"; "12" ] in
  _create_nl_ids df = Ok ids ∧ length ids = length df ∧ NoDup ids.
Proof.
  intros df ids.
  assert (_create_nl_ids df = Ok ids) as H by (vm_compute; reflexivity).
  split; [exact H | exact (proj1 (C2_nl_ids_unique df) ids H)].
Defined.

(** C3: in row order, the first row reducing to a base id gets the bare
    base id, and the k-th such row (k > 1) gets the base id followed by
    a dash and the decimal numeral of k. *)
Theorem C3_collision_order (df : DataFrame) (ids : list string)
    (i : nat) (row : Row) (b : string) :
  _create_nl_ids df = Ok ids →
  df !! i = Some row →
  base_id hostname_device_mapper row = Ok b →
  let k := occurrences hostname_device_mapper b (take (S i) df) in
  (1 ≤ k)%nat ∧
  (k = 1%nat → ids !! i = Some b) ∧
  ((1 < k)%nat → ids !! i = Some (b +:+ "-" +:+ Py.str_nat k)).
Proof.
  intros [c' Hrun]%create_nl_ids_inv Hi Hb k.
  pose proof (apply_rows_lookup _ _ _ _ _ _ _ _ Hrun Hi Hb) as Hid.
  rewrite counter_get_empty in Hid. simpl in Hid. fold k in Hid.
  pose proof (occurrences_take_S _ _ _ _ _ Hi Hb) as Hk. fold k in Hk.
  unfold suffixed in Hid. split; [lia|]. split.
  - intros Hk1. by rewrite Hk1 in Hid.
  - intros Hk1. apply Nat.ltb_lt in Hk1. by rewrite Hk1 in Hid.
Qed.

Lemma C3_collision_order_witness :
  let df := [ mkRow 5 "event" "pupil left" "h" "123";
              mkRow 7 "markers" "m" "h" EmptyString;
              mkRow 9 "event" "pupil right" "h" "123" ] in
  let ids := [ "pl-123-event"; "7-markers"; "pl-123-event-2" ] in
  _create_nl_ids df = Ok ids ∧
  ids !! 2%nat = Some ("pl-123-event" +:+ "-" +:+ Py.str_nat 2).
Proof.
  intros df ids.
  assert (_create_nl_ids df = Ok ids) as H by (vm_compute; reflexivity).
  split; [exact H|].
  refine (proj2 (proj2 (C3_collision_order df ids 2
            (mkRow 9 "event" "pupil right" "h" "123") "pl-123-event"
            H _ _)) _).
  - reflexivity.
  - vm_compute; reflexivity.
  - vm_compute. lia.
Defined.

(** ** The order on ids *)

Lemma string_compare_trans (a b c : string) :
  String.compare a b ≠ Gt → String.compare b c ≠ Gt →
  String.compare a c ≠ Gt.
Proof.
  revert b c. induction a as [|x a IH]; intros [|y b] [|z c]; simpl; try done.
  unfold Ascii.compare.
  destruct (N.compare_spec (N_of_ascii x) (N_of_ascii y)) as [Exy|Lxy|Gxy];
  destruct (N.compare_spec (N_of_ascii y) (N_of_ascii z)) as [Eyz|Lyz|Gyz];
  destruct (N.compare_spec (N_of_ascii x) (N_of_ascii z)) as [Exz|Lxz|Gxz];
    try done; try lia.
  apply IH.
Qed.

Lemma Py_le_compare (a b : string) : Py.le a b ↔ String.compare a b ≠ Gt.
Proof. unfold Py.le, String.leb. by destruct (String.compare a b). Qed.

Global Instance Py_le_total : Total Py.le.
Proof. intros a b. apply String.leb_total. Qed.

Global Instance Py_le_trans : Transitive Py.le.
Proof.
  intros a b c. rewrite !Py_le_compare. apply string_compare_trans.
Qed.

Global Instance key_le_total {V} : Total (@key_le V).
Proof. intros a b. apply Py_le_total. Qed.

Global Instance key_le_trans {V} : Transitive (@key_le V).
Proof. intros a b c. apply Py_le_trans. Qed.

Lemma sorted_by_key_fst {V} (d : list (string * V)) :
  StronglySorted Py.le (merge_sort key_le d).*1.
Proof.
  apply (StronglySorted_fmap fst key_le Py.le); [done|].
  apply (StronglySorted_merge_sort key_le).
Qed.

(** ** Remapping *)

(** C4: whatever [_map_stream_ids] returns for a list of stream ids, a dict
    keyed by stream id or a table indexed by stream id is in ascending
    lexicographic order of the new ids. *)
Theorem C4_remap_sorted {V} (md : Metadata) (data : Collection Z V)
    (out : Collection string V) :
  _map_stream_ids md data = Ok out → ordered_by_nl_id out.
Proof.
  unfold ordered_by_nl_id. destruct data as [|l|d|t|v]; simpl.
  - intros [= <-]. constructor.
  - destruct (list_comprehension _ l) as [ids|e]; simpl; [|done].
    intros [= <-]. simpl. apply (StronglySorted_merge_sort Py.le).
  - destruct (dict_comprehension _ d []) as [d'|e]; simpl; [|done].
    intros [= <-]. simpl. apply sorted_by_key_fst.
  - destruct (list_comprehension _ t.*1) as [ids|e]; simpl; [|done].
    intros [= <-]. simpl. apply sorted_by_key_fst.
  - intros [= <-]. constructor.
Qed.

Lemma C4_remap_sorted_witness :
  let md : Metadata :=
    [ ("eeg-a", mkRow 2 "eeg" "EEG stream" "DESKTOP-3R7C1PH" EmptyString);
      ("ts-marker", mkRow 1 "marker" "TimestampStream" "neurolive" EmptyString) ] in
  let data : Collection Z string := PyDict [ (1, "marks"); (2, "samples") ] in
  let out := PyDict [ ("eeg-a", "samples"); ("ts-marker", "marks") ] in
  _map_stream_ids md data = Ok out ∧ ordered_by_nl_id out.
Proof.
  intros md data out.
  assert (_map_stream_ids md data = Ok out) as H by (vm_compute; reflexivity).
  split; [exact H | exact (C4_remap_sorted md data out H)].
Defined.

Section comprehension.
Context {K V : Type}.
Variable g : K → result string.

Lemma list_comprehension_ok (f : K → string) (l : list K) :
  (∀ k, k ∈ l → g k = Ok (f k)) →
  list_comprehension g l = Ok (f <$> l).
Proof.
  induction l as [|k l IH]; intros Hg; simpl; [done|].
  rewrite (Hg k) by left. simpl.
  rewrite IH; [done|]. intros k' Hk'. apply Hg. by right.
Qed.

Lemma list_comprehension_raises (e : exn) (l : list K) (k : K) :
  (∀ k' e', g k' = Raise e' → e' = e) →
  k ∈ l → g k = Raise e →
  list_comprehension g l = Raise e.
Proof.
  intros Honly Hk Hraise.
  induction l as [|k0 l IH]; [by apply not_elem_of_nil in Hk|].
  simpl. destruct (g k0) as [y|e0] eqn:E0; simpl.
  - apply elem_of_cons in Hk as [-> | Hk]; [congruence|].
    by rewrite IH.
  - by rewrite (Honly _ _ E0).
Qed.

Lemma list_comprehension_raise_inv (e : exn) (l : list K) :
  list_comprehension g l = Raise e → ∃ k, k ∈ l ∧ g k = Raise e.
Proof.
  induction l as [|k0 l IH]; simpl; [done|].
  destruct (g k0) as [y|e0] eqn:E0; simpl.
  - destruct (list_comprehension g l) as [ys|e1]; simpl; [done|].
    intros [= ->]. destruct IH as (k & Hk & Hg); [done|].
    exists k. split; [by right | done].
  - intros [= ->]. exists k0. split; [by left | done].
Qed.

Lemma dict_set_fresh (d : list (string * V)) (k : string) (v : V) :
  k ∉ d.*1 → dict_set d k v = d ++ [(k, v)].
Proof.
  induction d as [|e d IH]; simpl; [done|]. intros Hk.
  apply not_elem_of_cons in Hk as [Hne Hk].
  rewrite decide_False by done. by rewrite IH.
Qed.

Lemma dict_comprehension_ok (f : K → string) (items : list (K * V))
    (acc : list (string * V)) :
  (∀ k, k ∈ items.*1 → g k = Ok (f k)) →
  NoDup (acc.*1 ++ (f <$> items.*1)) →
  dict_comprehension g items acc
    = Ok (acc ++ ((λ e, (f e.1, e.2)) <$> items)).
Proof.
  revert acc. induction items as [|e items IH]; intros acc Hg Hnd; simpl.
  - by rewrite app_nil_r.
  - rewrite (Hg e.1) by left. simpl.
    simpl in Hnd. apply NoDup_app in Hnd as (Hacc & Hdisj & Hnd).
    apply NoDup_cons in Hnd as [Hfresh Hnd].
    rewrite dict_set_fresh by (intros Hin; apply (Hdisj _ Hin); by left).
    rewrite IH.
    + by rewrite <-app_assoc.
    + intros k Hk. apply Hg. by right.
    + rewrite fmap_app. simpl. rewrite <-app_assoc. simpl.
      apply NoDup_app. split; [done|]. split; [|by apply NoDup_cons].
      intros x Hx. apply Hdisj. done.
Qed.

Lemma dict_comprehension_raises (e : exn) (items : list (K * V))
    (acc : list (string * V)) (k : K) :
  (∀ k' e', g k' = Raise e' → e' = e) →
  k ∈ items.*1 → g k = Raise e →
  dict_comprehension g items acc = Raise e.
Proof.
  intros Honly Hk Hraise. revert acc.
  induction items as [|e0 items IH]; intros acc;
    [by apply not_elem_of_nil in Hk|].
  simpl. destruct (g e0.1) as [y|e1] eqn:E0; simpl.
  - simpl in Hk. apply elem_of_cons in Hk as [-> | Hk]; [congruence|].
    by apply IH.
  - by rewrite (Honly _ _ E0).
Qed.

Lemma dict_comprehension_raise_inv (e : exn) (items : list (K * V))
    (acc : list (string * V)) :
  dict_comprehension g items acc = Raise e →
  ∃ k, k ∈ items.*1 ∧ g k = Raise e.
Proof.
  revert acc. induction items as [|e0 items IH]; intros acc; simpl; [done|].
  destruct (g e0.1) as [y|e1] eqn:E0; simpl.
  - intros H. destruct (IH _ H) as (k & Hk & Hg).
    exists k. split; [by right | done].
  - intros [= ->]. exists e0.1. split; [by left | done].
Qed.
End comprehension.

Lemma stream_id_to_nl_id_raises (md : Metadata) (sid : Z) (e : exn) :
  _stream_id_to_nl_id md sid = Raise e → e = IndexError.
Proof.
  unfold _stream_id_to_nl_id.
  destruct (filter _ md); [by intros [= <-] | done].
Qed.

(** The lookup fails exactly when no row of the table carries the id. *)
Lemma stream_id_to_nl_id_miss (md : Metadata) (sid : Z) :
  (∀ r, r ∈ md → stream_id r.2 ≠ sid) ↔
  _stream_id_to_nl_id md sid = Raise IndexError.
Proof.
  unfold _stream_id_to_nl_id. split.
  - intros Hmiss.
    destruct (filter _ md) as [|r rest] eqn:E; [done|].
    assert (r ∈ filter (λ r, stream_id r.2 = sid) md) as Hr
      by (rewrite E; left).
    apply list_elem_of_filter in Hr as [Hsid Hr]. by destruct (Hmiss r Hr).
  - destruct (filter _ md) as [|r0 rest] eqn:E; [|done].
    intros _ r Hr Hsid.
    assert (r ∈ filter (λ r, stream_id r.2 = sid) md) as Hin
      by (apply list_elem_of_filter; done).
    rewrite E in Hin. by apply not_elem_of_nil in Hin.
Qed.

Lemma zip_fmap_fst_snd {A B C} (f : A → C) (t : list (A * B)) :
  zip (f <$> t.*1) t.*2 = (λ e, (f e.1, e.2)) <$> t.
Proof. induction t as [|[a b] t IH]; csimpl; [done | by rewrite IH]. Qed.

(** C6: when every stream id of a collection has a row in the metadata table
    and the ids they map to are pairwise distinct, remapping returns a
    collection with the same number of entries, each input entry appearing
    once under its new id with its payload unchanged. *)
Theorem C6_remap_preserves_entries {V} (md : Metadata)
    (data : Collection Z V) (f : Z → string) :
  (∀ sid, sid ∈ keys data → _stream_id_to_nl_id md sid = Ok (f sid)) →
  NoDup (f <$> keys data) →
  ∃ out, _map_stream_ids md data = Ok out ∧
         entries out ≡ₚ (λ e, (f e.1, e.2)) <$> entries data ∧
         length (entries out) = length (entries data).
Proof.
  intros Hg Hnd.
  assert (∃ out, _map_stream_ids md data = Ok out ∧
                 entries out ≡ₚ (λ e, (f e.1, e.2)) <$> entries data)
    as (out & Hout & Hperm).
  { destruct data as [|l|d|t|v]; simpl in *.
    - by exists PyNone.
    - rewrite (list_comprehension_ok _ f l Hg). simpl.
      eexists; split; [done|]. simpl.
      rewrite merge_sort_Permutation, <-!list_fmap_compose. done.
    - rewrite (dict_comprehension_ok _ f d [] Hg Hnd). simpl.
      eexists; split; [done|]. simpl.
      rewrite merge_sort_Permutation, <-!list_fmap_compose. done.
    - rewrite (list_comprehension_ok _ f _ Hg). simpl.
      eexists; split; [done|]. simpl.
      rewrite merge_sort_Permutation, zip_fmap_fst_snd.
      rewrite <-!list_fmap_compose. done.
    - by exists (PyOther v). }
  exists out. split; [done|]. split; [done|].
  rewrite Hperm. by rewrite length_fmap.
Qed.

Lemma C6_remap_preserves_entries_witness :
  let md : Metadata :=
    [ ("eeg-a", mkRow 2 "eeg" "EEG stream" "DESKTOP-3R7C1PH" EmptyString);
      ("ts-marker", mkRow 1 "marker" "TimestampStream" "neurolive" EmptyString) ] in
  let data : Collection Z string := PyDict [ (1, "marks"); (2, "samples") ] in
  let f (sid : Z) : string := if (sid =? 1)%Z then "ts-marker" else "eeg-a" in
  (∀ sid, sid ∈ keys data → _stream_id_to_nl_id md sid = Ok (f sid)) ∧
  NoDup (f <$> keys data) ∧
  ∃ out, _map_stream_ids md data = Ok out ∧
         entries out ≡ₚ (λ e, (f e.1, e.2)) <$> entries data ∧
         length (entries out) = length (entries data).
Proof.
  intros md data f.
  assert (∀ sid, sid ∈ keys data → _stream_id_to_nl_id md sid = Ok (f sid))
    as H1.
  { intros sid Hsid. simpl in Hsid.
    apply elem_of_cons in Hsid as [-> | Hsid]; [vm_compute; reflexivity|].
    apply elem_of_cons in Hsid as [-> | Hsid]; [vm_compute; reflexivity|].
    by apply not_elem_of_nil in Hsid. }
  assert (NoDup (f <$> keys data)) as H2.
  { apply (bool_decide_unpack _). vm_compute. exact I. }
  split; [exact H1|]. split; [exact H2|].
  exact (C6_remap_preserves_entries md data f H1 H2).
Defined.

Lemma map_stream_ids_raises {V} (md : Metadata) (data : Collection Z V)
    (e : exn) :
  _map_stream_ids md data = Raise e → e = IndexError.
Proof.
  destruct data as [|l|d|t|v]; simpl; try done.
  - destruct (list_comprehension _ l) as [ids|e0] eqn:E; simpl; [done|].
    intros [= <-]. apply list_comprehension_raise_inv in E as (k & _ & Hk).
    by eapply stream_id_to_nl_id_raises.
  - destruct (dict_comprehension _ d []) as [d'|e0] eqn:E; simpl; [done|].
    intros [= <-]. apply dict_comprehension_raise_inv in E as (k & _ & Hk).
    by eapply stream_id_to_nl_id_raises.
  - destruct (list_comprehension _ t.*1) as [ids|e0] eqn:E; simpl; [done|].
    intros [= <-]. apply list_comprehension_raise_inv in E as (k & _ & Hk).
    by eapply stream_id_to_nl_id_raises.
Qed.

Lemma map_stream_ids_miss {V} (md : Metadata) (data : Collection Z V)
    (sid : Z) :
  (∀ r, r ∈ md → stream_id r.2 ≠ sid) → sid ∈ keys data →
  _map_stream_ids md data = Raise IndexError.
Proof.
  intros Hmiss%stream_id_to_nl_id_miss Hsid.
  pose proof (stream_id_to_nl_id_raises md) as Honly.
  destruct data as [|l|d|t|v]; simpl in *;
    try (by apply not_elem_of_nil in Hsid).
  - by rewrite (list_comprehension_raises _ IndexError l sid).
  - by rewrite (dict_comprehension_raises _ IndexError d [] sid).
  - by rewrite (list_comprehension_raises _ IndexError t.*1 sid).
Qed.

Lemma remap_all_miss {V} (self : Xdf Z V) (data : Collection Z V) :
  data ∈ stream_collections self →
  _map_stream_ids (_metadata self) data = Raise IndexError →
  remap_all self = Raise IndexError.
Proof.
  intros Hin Hraise. unfold remap_all.
  pose proof (map_stream_ids_raises (V:=V) (_metadata self)) as Honly.
  destruct (_map_stream_ids _ (_loaded_stream_ids self)) as [x1|e1] eqn:E1;
    simpl; [|by rewrite (Honly _ _ E1)].
  destruct (_map_stream_ids _ (_channel_metadata self)) as [x2|e2] eqn:E2;
    simpl; [|by rewrite (Honly _ _ E2)].
  destruct (_map_stream_ids _ (_footer self)) as [x3|e3] eqn:E3;
    simpl; [|by rewrite (Honly _ _ E3)].
  destruct (_map_stream_ids _ (_clock_offsets self)) as [x4|e4] eqn:E4;
    simpl; [|by rewrite (Honly _ _ E4)].
  destruct (_map_stream_ids _ (_time_series self)) as [x5|e5] eqn:E5;
    simpl; [|by rewrite (Honly _ _ E5)].
  destruct (_map_stream_ids _ (_time_stamps self)) as [x6|e6] eqn:E6;
    simpl; [|by rewrite (Honly _ _ E6)].
  unfold stream_collections in Hin.
  repeat (apply elem_of_cons in Hin as [-> | Hin]; [congruence|]).
  by apply not_elem_of_nil in Hin.
Qed.

(** C7: a stream id of the collection that no row of the metadata table
    carries makes the remap raise [IndexError], and when that collection is
    one of those [load] remaps, the exception leaves [load] as it is. *)
Theorem C7_lookup_miss_propagates {V}
    (_load : Xdf string V → LoadArgs → Loaded V)
    (self : Xdf string V) (args : LoadArgs)
    (loaded : Xdf Z V) (data : Collection Z V) (sid : Z) :
  (∀ r, r ∈ _metadata loaded → stream_id r.2 ≠ sid) →
  sid ∈ keys data →
  _map_stream_ids (_metadata loaded) data = Raise IndexError ∧
  (_load self args = LoadReturns loaded →
   data ∈ stream_collections loaded →
   load _load self args = Raises IndexError).
Proof.
  intros Hmiss Hsid.
  pose proof (map_stream_ids_miss _ _ _ Hmiss Hsid) as Hraise.
  split; [done|]. intros Hload Hin. unfold load. rewrite Hload.
  by rewrite (remap_all_miss loaded data Hin Hraise).
Qed.

(** C5: when the loader raises [NoLoadableStreamsError] or
    [XdfAlreadyLoadedError], [load] prints the exception and returns the
    object as the loader left it, with no collection remapped; an object
    the loader did not touch is returned unchanged. *)
Theorem C5_recoverable_load_is_noop {V}
    (_load : Xdf string V → LoadArgs → Loaded V)
    (self self' : Xdf string V) (args : LoadArgs) (e : exn) :
  _load self args = LoadRaises e self' →
  recoverable e = true →
  load _load self args = Returns self' [e] ∧
  (self' = self → load _load self args = Returns self [e]).
Proof.
  intros Hload Hrec. unfold load. rewrite Hload.
  destruct e; try discriminate Hrec; (split; [done | by intros ->]).
Qed.

Lemma C5_recoverable_load_is_noop_witness :
  let loader (self : Xdf string string) (args : LoadArgs) :=
    LoadRaises (XdfAlreadyLoadedError "already loaded") self in
  let self : Xdf string string :=
    mkXdf [ ("eeg-a", mkRow 2 "eeg" "EEG stream" "DESKTOP-3R7C1PH" EmptyString) ]
          (PyList [ "eeg-a" ]) PyNone PyNone PyNone
          (PyDict [ ("eeg-a", "samples") ]) PyNone in
  let args := mkLoadArgs [] "unit" "label" true true true in
  load loader self args
    = Returns self [ XdfAlreadyLoadedError "already loaded" ].
Proof.
  intros loader self args.
  exact (proj1 (C5_recoverable_load_is_noop loader self self args
                  (XdfAlreadyLoadedError "already loaded")
                  eq_refl eq_refl)).
Defined.

Lemma C7_lookup_miss_propagates_witness :
  let loaded : Xdf Z string :=
    mkXdf [ ("eeg-a", mkRow 2 "eeg" "EEG stream" "DESKTOP-3R7C1PH" EmptyString) ]
          (PyList [ 2; 7 ]) PyNone PyNone PyNone
          (PyDict [ (2, "samples"); (7, "marks") ]) PyNone in
  let loader (self : Xdf string string) (args : LoadArgs) :=
    LoadReturns loaded in
  let self : Xdf string string :=
    mkXdf [] PyNone PyNone PyNone PyNone PyNone PyNone in
  let args := mkLoadArgs [] "unit" "label" true true true in
  _map_stream_ids (_metadata loaded) (_time_series loaded) = Raise IndexError ∧
  load loader self args = Raises IndexError.
Proof.
  intros loaded loader self args.
  assert (∀ r, r ∈ _metadata loaded → stream_id r.2 ≠ 7) as Hmiss.
  { intros r Hr. simpl in Hr.
    apply elem_of_cons in Hr as [-> | Hr]; [simpl; lia|].
    by apply not_elem_of_nil in Hr. }
  assert (7 ∈ keys (_time_series loaded)) as Hsid.
  { simpl. right. left. }
  assert (_time_series loaded ∈ stream_collections loaded) as Hin.
  { unfold stream_collections. do 4 right. left. }
  destruct (C7_lookup_miss_propagates loader self args loaded
              (_time_series loaded) 7 Hmiss Hsid) as [H1 H2].
  split; [exact H1 | exact (H2 eq_refl Hin)].
Defined.

(** ** Normalisation *)

Lemma lower_ascii_idem (c : ascii) :
  Py.lower_ascii (Py.lower_ascii c) = Py.lower_ascii c.
Proof. destruct c as [[] [] [] [] [] [] [] []]; reflexivity. Qed.

Lemma lower_idem (s : string) : Py.lower (Py.lower s) = Py.lower s.
Proof.
  induction s as [|c s IH]; simpl; [done|].
  by rewrite lower_ascii_idem, IH.
Qed.

Lemma replace_value_stable (table_entries : list (string * string))
    (v : string) :
  table_stable table_entries = true →
  replace_value (list_to_map table_entries)
                (replace_value (list_to_map table_entries) v)
  = replace_value (list_to_map table_entries) v.
Proof.
  intros Hst. unfold replace_value.
  destruct (list_to_map table_entries !! v) as [w|] eqn:E; simpl.
  - apply elem_of_list_to_map_2 in E.
    unfold table_stable in Hst. rewrite forallb_forall in Hst.
    apply list_elem_of_In, Hst, bool_decide_eq_true_1 in E. simpl in E.
    by rewrite E.
  - by rewrite E.
Qed.

Lemma metadata_type_stable : table_stable metadata_type_entries = true.
Proof. vm_compute. reflexivity. Qed.

Lemma channel_label_stable : table_stable channel_label_entries = true.
Proof. vm_compute. reflexivity. Qed.

Lemma channel_type_stable : table_stable channel_type_entries = true.
Proof. vm_compute. reflexivity. Qed.

Lemma metadata_column_table (col : string) :
  column_table metadata_mapper col =
  if Py.eqs "type" col then Some (list_to_map metadata_type_entries) else None.
Proof. reflexivity. Qed.

Lemma channel_column_table (col : string) :
  column_table channel_metadata_mapper col =
  if Py.eqs "label" col then Some (list_to_map channel_label_entries)
  else if Py.eqs "type" col then Some (list_to_map channel_type_entries)
  else None.
Proof. reflexivity. Qed.

Lemma metadata_replace_idem (col v : string) :
  replace_cell metadata_mapper col (replace_cell metadata_mapper col v)
  = replace_cell metadata_mapper col v.
Proof.
  unfold replace_cell. rewrite metadata_column_table.
  destruct (Py.eqs "type" col); [|done].
  apply replace_value_stable, metadata_type_stable.
Qed.

Lemma channel_replace_idem (col v : string) :
  replace_cell channel_metadata_mapper col
               (replace_cell channel_metadata_mapper col v)
  = replace_cell channel_metadata_mapper col v.
Proof.
  unfold replace_cell. rewrite channel_column_table.
  destruct (Py.eqs "label" col);
    [apply replace_value_stable, channel_label_stable|].
  destruct (Py.eqs "type" col); [|done].
  apply replace_value_stable, channel_type_stable.
Qed.

(** The type column after normalisation is in lower case already. *)
Lemma normalized_type_lower (t : string) :
  Py.lower (replace_cell metadata_mapper "type" (Py.lower t))
  = replace_cell metadata_mapper "type" (Py.lower t).
Proof.
  unfold replace_cell. rewrite metadata_column_table.
  change (Py.eqs "type" "type") with true. cbv iota. unfold replace_value.
  destruct (list_to_map metadata_type_entries !! Py.lower t) as [w|] eqn:E;
    simpl; [|apply lower_idem].
  apply elem_of_list_to_map_2 in E. unfold metadata_type_entries in E.
  apply list_elem_of_singleton in E. by injection E as _ ->.
Qed.

Lemma metadata_other_columns (v : string) :
  replace_cell metadata_mapper "name" v = v ∧
  replace_cell metadata_mapper "hostname" v = v ∧
  replace_cell metadata_mapper "source_id" v = v.
Proof. done. Qed.

Lemma normalize_metadata_idem (df : DataFrame) :
  normalize_metadata (normalize_metadata df) = normalize_metadata df.
Proof.
  unfold normalize_metadata, df_replace, lower_types.
  rewrite !map_map. apply map_ext. intros [sid t n h s]. simpl.
  f_equal. rewrite normalized_type_lower. apply metadata_replace_idem.
Qed.

Lemma has_column_frame_replace mapper (col : string) (df : ChannelFrame) :
  has_column col (frame_replace mapper df) = has_column col df.
Proof.
  unfold has_column, frame_replace.
  induction df as [|c df IH]; simpl; [done | by rewrite IH].
Qed.

Lemma frame_replace_idem (df : ChannelFrame) :
  frame_replace channel_metadata_mapper
    (frame_replace channel_metadata_mapper df)
  = frame_replace channel_metadata_mapper df.
Proof.
  unfold frame_replace. rewrite map_map. apply map_ext.
  intros [col cells]. simpl. f_equal.
  rewrite map_map. apply map_ext. intros v. apply channel_replace_idem.
Qed.

Lemma label_from_index_has_label (df : ChannelFrame) :
  has_column "index" (label_from_index df)
  && negb (has_column "label" (label_from_index df)) = false.
Proof.
  unfold label_from_index.
  destruct (has_column "index" df && negb (has_column "label" df)) eqn:E;
    [|done].
  unfold has_column at 2. rewrite existsb_app.
  change (existsb _ [("label"%string, get_column "index" df)]) with true.
  rewrite orb_true_r. apply andb_false_r.
Qed.

Lemma normalize_channel_frame_idem (df : ChannelFrame) :
  normalize_channel_frame (normalize_channel_frame df)
  = normalize_channel_frame df.
Proof.
  unfold normalize_channel_frame.
  unfold label_from_index at 1.
  rewrite !has_column_frame_replace, label_from_index_has_label.
  apply frame_replace_idem.
Qed.

(** C8: normalising a normalised metadata table, or a normalised
    channel-metadata dict, changes nothing; and no value a rewrite table
    writes is rewritten by that table. *)
Theorem C8_normalization_idempotent :
  (∀ df : DataFrame,
     normalize_metadata (normalize_metadata df) = normalize_metadata df) ∧
  (∀ data : option (list (Z * ChannelFrame)),
     _parse_channel_metadata (_parse_channel_metadata data)
     = _parse_channel_metadata data) ∧
  Forall (λ e, replace_cell metadata_mapper "type" e.2 = e.2)
         metadata_type_entries ∧
  Forall (λ e, replace_cell channel_metadata_mapper "label" e.2 = e.2)
         channel_label_entries ∧
  Forall (λ e, replace_cell channel_metadata_mapper "type" e.2 = e.2)
         channel_type_entries.
Proof.
  split; [apply normalize_metadata_idem|]. split.
  - intros [d|]; simpl; [|done]. f_equal.
    rewrite map_map. apply map_ext. intros [sid df]. simpl.
    by rewrite normalize_channel_frame_idem.
  - repeat split; apply Forall_forall; intros e He;
      apply (bool_decide_unpack _);
      revert e He; apply Forall_forall, (bool_decide_unpack _);
      vm_compute; exact I.
Qed.

(** ** The two entry points *)

(** [_parse_metadata] is [resolve_streams] run on the normalised table. *)
Lemma parse_metadata_normalizes (df : DataFrame) (nl_id_as_index : bool) :
  _parse_metadata df nl_id_as_index
  = resolve_streams (normalize_metadata df) nl_id_as_index.
Proof. reflexivity. Qed.

(** C9 (the code departs from the claim): [resolve_streams] classifies the
    table as the parent class resolved it, with no lower-casing and no
    rewrite, so a stream whose type is spelled 'Control' misses the
    'control' rule and keeps its stream id, while [_parse_metadata] names
    the same stream 'test-ctrl'. *)
Theorem C9_resolve_streams_skips_normalization :
  let row := mkRow 3 "Control" "sync" "neurolive" EmptyString in
  resolve_streams [row] true = Ok (IndexedByNlId [ ("3", row) ]) ∧
  _parse_metadata [row] true
    = Ok (IndexedByNlId
            [ ("test-ctrl", mkRow 3 "control" "sync" "neurolive" EmptyString) ]).
Proof. split; vm_compute; reflexivity. Qed.

(** ** Determinism *)

Lemma store_deref_insert (h : Store.Heap) (ref : positive) (c : Counter) :
  Store.deref (<[ref := c]> h) ref = c.
Proof. unfold Store.deref. by rewrite lookup_insert_eq. Qed.

Lemma store_make_nl_id hm (row : Row) (ref : positive) (h : Store.Heap)
    (c : Counter) (b : string) :
  h !! ref = Some c → base_id hm row = Ok b →
  Store.make_nl_id row ref hm h
  = (Ok (suffixed b (S (counter_get c b))), <[ref := counter_update c b]> h).
Proof.
  intros Hc Hb. unfold Store.make_nl_id. rewrite Hb.
  assert (Store.deref h ref = c) as -> by (unfold Store.deref; by rewrite Hc).
  cbv zeta. rewrite store_deref_insert, counter_get_update_eq.
  unfold suffixed. by destruct (1 <? S (counter_get c b))%nat.
Qed.

(** A run of [df.apply] through a reference yields what the rows give from
    the counts the object held on entry, and writes to that object only. *)
Lemma store_apply_rows hm (ref : positive) (df : DataFrame)
    (h : Store.Heap) (c : Counter) :
  h !! ref = Some c →
  (Store.apply_rows hm ref df h).1 = (r ← apply_rows hm c df; Ok r.1) ∧
  ∃ c', (Store.apply_rows hm ref df h).2 = <[ref := c']> h.
Proof.
  revert h c. induction df as [|row rest IH]; intros h c Hc.
  - split; [done|]. exists c. simpl. by rewrite insert_id.
  - simpl. unfold make_nl_id.
    destruct (base_id hm row) as [b|e] eqn:Hb.
    + rewrite (store_make_nl_id hm row ref h c b Hc Hb).
      simpl. rewrite count_and_suffix_eq. simpl.
      destruct (IH (<[ref := counter_update c b]> h) (counter_update c b))
        as [Hids (c' & Hh)]; [apply lookup_insert_eq|].
      rewrite insert_insert_eq in Hh.
      destruct (Store.apply_rows hm ref rest (<[ref:=counter_update c b]> h))
        as [[ids|e] h']; simpl in Hids, Hh; subst h';
        destruct (apply_rows hm (counter_update c b) rest)
          as [[ids' c'']|e']; simpl in Hids |- *; try done.
      * injection Hids as ->. split; [done | by exists c'].
      * injection Hids as ->. split; [done | by exists c'].
    + unfold Store.make_nl_id. rewrite Hb. simpl.
      split; [done|]. exists c. by rewrite insert_id.
Qed.

Lemma store_create_nl_ids (df : DataFrame) (h : Store.Heap) :
  (Store._create_nl_ids df h).1 = _create_nl_ids df ∧
  ∀ ref, ref ∈ dom h → (Store._create_nl_ids df h).2 !! ref = h !! ref.
Proof.
  unfold Store._create_nl_ids, Store.new_counter, _create_nl_ids.
  set (ref := fresh (dom h)).
  destruct (store_apply_rows hostname_device_mapper ref df
              (<[ref := ∅]> h) ∅) as [Hids (c' & Hh)];
    [apply lookup_insert_eq|].
  split; [done|]. intros ref' Hin. rewrite Hh, insert_insert_eq.
  apply lookup_insert_ne. intros <-. by apply (is_fresh (dom h)).
Qed.

(** C10: whatever counter objects earlier runs have left in the store, a
    classification run returns the assignment its own table gives from an
    empty counter and leaves every object it found untouched; so a second
    run over the same table, started in the store the first one left,
    returns the same assignment, and so does a run in any other store. *)
Theorem C10_classification_stateless (df : DataFrame) (h h' : Store.Heap) :
  let first := Store._create_nl_ids df h in
  let second := Store._create_nl_ids df first.2 in
  first.1 = _create_nl_ids df ∧
  second.1 = first.1 ∧
  (Store._create_nl_ids df h').1 = first.1 ∧
  ∀ ref, ref ∈ dom h → first.2 !! ref = h !! ref.
Proof.
  cbv zeta.
  destruct (store_create_nl_ids df h) as [H1 Hframe].
  destruct (store_create_nl_ids df (Store._create_nl_ids df h).2) as [H2 _].
  destruct (store_create_nl_ids df h') as [H3 _].
  rewrite H1, H2, H3. done.
Qed.

(** The store is not idle: the counter a run used stays behind with its
    counts, and a run through that same object would name the stream
    differently. *)
Example leftover_counter_is_not_reused :
  let df := [ mkRow 5 "gaze" "pupil left" "h" "123" ] in
  let first := Store._create_nl_ids df ∅ in
  first.1 = Ok [ "pl-123-gaze" ] ∧
  counter_get (Store.deref first.2 (fresh (dom (∅ : Store.Heap))))
              "pl-123-gaze" = 1%nat ∧
  (Store.apply_rows hostname_device_mapper
     (fresh (dom (∅ : Store.Heap))) df first.2).1 = Ok [ "pl-123-gaze-2" ] ∧
  (Store._create_nl_ids df first.2).1 = Ok [ "pl-123-gaze" ].
Proof. repeat split; vm_compute; reflexivity. Qed.

(** * Further properties of the code *)

(** ** When classification raises *)

Lemma base_id_raise_iff hm (row : Row) (e : exn) :
  base_id hm row = Raise e ↔
  unmapped_eeg hm row ∧ e = KeyError (hostname row).
Proof.
  split.
  - intros (? & ? & ?)%base_id_raises. by split.
  - intros [[Heeg Hnone] ->]. unfold base_id.
    rewrite Heeg, Hnone. reflexivity.
Qed.

Lemma apply_rows_raise_iff hm (c : Counter) (df : DataFrame) (e : exn) :
  apply_rows hm c df = Raise e ↔
  ∃ (i : nat) (row : Row),
    df !! i = Some row ∧ unmapped_eeg hm row ∧ e = KeyError (hostname row) ∧
    ∀ (j : nat) (row' : Row),
      (j < i)%nat → df !! j = Some row' → ¬ unmapped_eeg hm row'.
Proof.
  revert c. induction df as [|row0 rest IH]; intros c.
  - split; [done | by intros (i & row & ? & _)].
  - simpl. unfold make_nl_id.
    destruct (base_id hm row0) as [b|e0] eqn:Hb; simpl.
    + assert (¬ unmapped_eeg hm row0) as Hok.
      { intros Hun.
        assert (base_id hm row0 = Raise (KeyError (hostname row0))) as Hr
          by (by apply base_id_raise_iff).
        congruence. }
      specialize (IH (count_and_suffix b c).2).
      destruct (apply_rows hm (count_and_suffix b c).2 rest)
        as [[ids c']|e1]; simpl.
      * split; [done|]. intros ([|i] & row & Hi & Hun & He & Hfirst).
        -- simpl in Hi. injection Hi as <-. done.
        -- assert (Ok (ids, c') = Raise e) as Habs; [|done].
           apply IH. exists i, row. do 3 (split; [done|]).
           intros j row' Hj Hrow'. apply (Hfirst (S j) row'); [lia | done].
      * split.
        -- intros [= ->]. destruct (proj1 IH eq_refl)
             as (i & row & Hi & Hun & He & Hfirst).
           exists (S i), row. do 3 (split; [done|]).
           intros [|j] row' Hj Hrow'; simpl in Hrow'.
           ++ by injection Hrow' as <-.
           ++ apply (Hfirst j row'); [lia | done].
        -- intros ([|i] & row & Hi & Hun & He & Hfirst).
           ++ simpl in Hi. injection Hi as <-. done.
           ++ apply IH.
              exists i, row. do 3 (split; [done|]).
              intros j row' Hj Hrow'. apply (Hfirst (S j) row'); [lia|done].
    + apply base_id_raise_iff in Hb as [Hun ->]. split.
      * intros [= <-]. exists 0%nat, row0. do 3 (split; [done|]).
        intros j row' Hj. lia.
      * intros ([|i] & row & Hi & Hun' & He & Hfirst).
        -- simpl in Hi. injection Hi as <-. by subst e.
        -- destruct (Hfirst 0%nat row0); [lia | done | done].
Qed.

Lemma create_nl_ids_raise_iff (df : DataFrame) (e : exn) :
  _create_nl_ids df = Raise e ↔
  apply_rows hostname_device_mapper ∅ df = Raise e.
Proof.
  unfold _create_nl_ids.
  destruct (apply_rows hostname_device_mapper ∅ df) as [[ids c']|e'];
    simpl; [done|]. split; by intros [= ->].
Qed.

(** X1: classification raises exactly when some EEG-typed row names a host
    that is not in the device table, and the exception is the [KeyError] of
    the first such row; the rows after it are never looked at. *)
Theorem X1_classification_raises_on_first_unmapped_eeg
    (df : DataFrame) (e : exn) :
  _create_nl_ids df = Raise e ↔
  ∃ (i : nat) (row : Row),
    df !! i = Some row ∧
    unmapped_eeg hostname_device_mapper row ∧
    e = KeyError (hostname row) ∧
    ∀ (j : nat) (row' : Row),
      (j < i)%nat → df !! j = Some row' →
      ¬ unmapped_eeg hostname_device_mapper row'.
Proof. rewrite create_nl_ids_raise_iff. apply apply_rows_raise_iff. Qed.

(** ** Classification of a table and of its extensions *)

Lemma apply_rows_app hm (c : Counter) (df1 df2 : DataFrame) :
  apply_rows hm c (df1 ++ df2) =
  (r1 ← apply_rows hm c df1;
   r2 ← apply_rows hm r1.2 df2;
   Ok (r1.1 ++ r2.1, r2.2)).
Proof.
  revert c. induction df1 as [|row rest IH]; intros c; simpl.
  - by destruct (apply_rows hm c df2) as [[ids c']|e].
  - destruct (make_nl_id row c hm) as [[id c1]|e]; simpl; [|done].
    rewrite IH.
    destruct (apply_rows hm c1 rest) as [[ids1 c2]|e]; simpl; [|done].
    by destruct (apply_rows hm c2 df2) as [[ids2 c3]|e].
Qed.

Lemma create_nl_ids_app (df more : DataFrame) :
  (∀ ids, _create_nl_ids (df ++ more) = Ok ids →
          _create_nl_ids df = Ok (take (length df) ids)) ∧
  (∀ e, _create_nl_ids df = Raise e → _create_nl_ids (df ++ more) = Raise e).
Proof.
  unfold _create_nl_ids. rewrite apply_rows_app.
  destruct (apply_rows hostname_device_mapper ∅ df) as [[ids1 c1]|e1] eqn:E1;
    simpl; [|by split].
  split; [|done].
  destruct (apply_rows hostname_device_mapper c1 more) as [[ids2 c2]|e2];
    simpl; [|done].
  intros ids [= <-]. f_equal.
  rewrite <-(apply_rows_length _ _ _ _ _ E1). by rewrite take_app_length.
Qed.

(** X2: streams appended to a table never rename the streams before them.
    If the longer table classifies, the shorter one does, with the same ids
    for its rows; if the shorter one raises, so does the longer one, with
    the same exception. *)
Theorem X2_appended_rows_keep_earlier_ids (df more : DataFrame) :
  (∀ ids, _create_nl_ids (df ++ more) = Ok ids →
          _create_nl_ids df = Ok (take (length df) ids)) ∧
  (∀ e, _create_nl_ids df = Raise e → _create_nl_ids (df ++ more) = Raise e).
Proof. apply create_nl_ids_app. Qed.

Lemma X2_appended_rows_keep_earlier_ids_witness :
  let df := [ mkRow 1 "gaze" "pupil left" "h" "123";
              mkRow 2 "markers" "m" "h" "456" ] in
  let more := [ mkRow 3 "gaze" "pupil right" "h" "123" ] in
  _create_nl_ids (df ++ more)
    = Ok [ "pl-123-gaze"; "2-markers"; "pl-123-gaze-2" ] ∧
  _create_nl_ids df = Ok [ "pl-123-gaze"; "2-markers" ].
Proof.
  intros df more.
  assert (_create_nl_ids (df ++ more)
          = Ok [ "pl-123-gaze"; "2-markers"; "pl-123-gaze-2" ]) as H
    by (vm_compute; reflexivity).
  split; [exact H|].
  exact (proj1 (X2_appended_rows_keep_earlier_ids df more) _ H).
Defined.

(** ** The tables the two entry points return *)

Lemma fst_zip_eq {A B} (l : list A) (k : list B) :
  length l = length k → (zip l k).*1 = l.
Proof. intros H. apply fst_zip. lia. Qed.

Lemma snd_zip_eq {A B} (l : list A) (k : list B) :
  length l = length k → (zip l k).*2 = k.
Proof. intros H. apply snd_zip. lia. Qed.

Lemma resolve_streams_indexed_inv (df : DataFrame) (out : ResolvedTable) :
  resolve_streams df true = Ok out →
  ∃ ids, _create_nl_ids df = Ok ids ∧
         out = IndexedByNlId (merge_sort key_le (zip ids df)).
Proof.
  unfold resolve_streams.
  destruct (_create_nl_ids df) as [ids|e] eqn:E; simpl; [|done].
  unfold attach_nl_ids. destruct df as [|row rest]; [done|].
  destruct (decide (NoDup ids)); [|done].
  intros [= <-]. by exists ids.
Qed.

Lemma resolve_streams_indexed (df : DataFrame) (out : ResolvedTable) :
  resolve_streams df true = Ok out →
  ∃ t ids, out = IndexedByNlId t ∧
           _create_nl_ids df = Ok ids ∧
           t ≡ₚ zip ids df ∧
           length t = length df ∧
           NoDup t.*1 ∧
           StronglySorted Py.le t.*1.
Proof.
  intros (ids & Hids & ->)%resolve_streams_indexed_inv.
  destruct (create_nl_ids_distinct _ _ Hids) as [Hlen Hnd].
  exists (merge_sort key_le (zip ids df)), ids.
  split; [done|]. split; [done|].
  pose proof (merge_sort_Permutation key_le (zip ids df)) as Hperm.
  split; [done|]. split; [|split].
  - rewrite Hperm, length_zip. lia.
  - rewrite Hperm, fst_zip_eq; done.
  - apply sorted_by_key_fst.
Qed.

(** X3: with [nl_id_as_index=True], a table [resolve_streams] returns has
    the rows of the resolved table, each once and paired with the id the
    classifier gave it, under pairwise distinct index labels in ascending
    order. *)
Theorem X3_resolve_streams_indexed_table (df : DataFrame)
    (out : ResolvedTable) :
  resolve_streams df true = Ok out →
  ∃ t ids, out = IndexedByNlId t ∧
           _create_nl_ids df = Ok ids ∧
           t ≡ₚ zip ids df ∧
           length t = length df ∧
           NoDup t.*1 ∧
           StronglySorted Py.le t.*1.
Proof. apply resolve_streams_indexed. Qed.

Lemma X3_resolve_streams_indexed_table_witness :
  let r1 := mkRow 1 "marker" "TimestampStream" "neurolive" "m1" in
  let r2 := mkRow 2 "EEG" "EEG stream" "DESKTOP-3R7C1PH" "ant" in
  let out := IndexedByNlId [ ("eeg-a", r2); ("ts-marker", r1) ] in
  resolve_streams [ r1; r2 ] true = Ok out ∧
  ∃ t ids, out = IndexedByNlId t ∧
           _create_nl_ids [ r1; r2 ] = Ok ids ∧
           t ≡ₚ zip ids [ r1; r2 ] ∧
           length t = length [ r1; r2 ] ∧
           NoDup t.*1 ∧
           StronglySorted Py.le t.*1.
Proof.
  intros r1 r2 out.
  assert (resolve_streams [ r1; r2 ] true = Ok out) as H
    by (vm_compute; reflexivity).
  split; [exact H | exact (X3_resolve_streams_indexed_table _ _ H)].
Defined.

(** X4: with [nl_id_as_index=False], a table [resolve_streams] returns has
    the rows of the resolved table, unchanged and in their original order,
    and its first column holds the ids the classifier gave them. *)
Theorem X4_resolve_streams_id_column (df : DataFrame) (out : ResolvedTable) :
  resolve_streams df false = Ok out →
  ∃ t, out = NlIdColumn t ∧ t.*2 = df ∧ _create_nl_ids df = Ok t.*1.
Proof.
  unfold resolve_streams.
  destruct (_create_nl_ids df) as [ids|e] eqn:E; simpl; [|done].
  destruct (create_nl_ids_distinct _ _ E) as [Hlen _].
  unfold attach_nl_ids. destruct df as [|row rest] eqn:Hdf; [done|].
  rewrite <-Hdf in *. intros [= <-]. exists (zip ids df).
  split; [done|]. by rewrite snd_zip_eq, fst_zip_eq.
Qed.

Lemma X4_resolve_streams_id_column_witness :
  let r1 := mkRow 1 "marker" "TimestampStream" "neurolive" "m1" in
  let r2 := mkRow 2 "EEG" "EEG stream" "DESKTOP-3R7C1PH" "ant" in
  let out := NlIdColumn [ ("ts-marker", r1); ("eeg-a", r2) ] in
  resolve_streams [ r1; r2 ] false = Ok out ∧
  ∃ t, out = NlIdColumn t ∧ t.*2 = [ r1; r2 ] ∧
       _create_nl_ids [ r1; r2 ] = Ok t.*1.
Proof.
  intros r1 r2 out.
  assert (resolve_streams [ r1; r2 ] false = Ok out) as H
    by (vm_compute; reflexivity).
  split; [exact H | exact (X4_resolve_streams_id_column _ _ H)].
Defined.

(** ** What normalisation does to the metadata table *)

Lemma lower_ascii_not_E (c : ascii) : Py.lower_ascii c ≠ "E"%char.
Proof.
  destruct c as [[] [] [] [] [] [] [] []]; vm_compute; discriminate.
Qed.

Lemma lower_not_EEG (t : string) : Py.lower t ≠ "EEG".
Proof.
  destruct t as [|c t]; simpl; [discriminate|].
  intros [= Hc _]. by apply lower_ascii_not_E in Hc.
Qed.

Lemma replace_type_lower (t : string) :
  replace_cell metadata_mapper "type" (Py.lower t) = Py.lower t.
Proof.
  unfold replace_cell. rewrite metadata_column_table.
  change (Py.eqs "type" "type") with true. cbv iota. unfold replace_value.
  destruct (list_to_map metadata_type_entries !! Py.lower t) as [w|] eqn:E;
    [|done].
  apply elem_of_list_to_map_2 in E. unfold metadata_type_entries in E.
  apply list_elem_of_singleton in E. injection E as E _.
  by apply lower_not_EEG in E.
Qed.

Lemma normalize_metadata_lower_types (df : DataFrame) :
  normalize_metadata df = lower_types df.
Proof.
  unfold normalize_metadata, df_replace, lower_types.
  rewrite map_map. apply map_ext. intros [sid t n h s]. simpl.
  by rewrite replace_type_lower.
Qed.

(** X5: in [_parse_metadata] the rewrite table of [metadata_mapper] never
    fires: its only key, 'EEG', cannot occur once the types are in lower
    case.  Normalisation is the lower-casing of the type column; every
    other cell, the row order and the row count are kept. *)
Theorem X5_metadata_rewrite_never_fires (df : DataFrame) :
  normalize_metadata df = lower_types df ∧
  length (normalize_metadata df) = length df ∧
  stream_id <$> normalize_metadata df = stream_id <$> df ∧
  name <$> normalize_metadata df = name <$> df ∧
  hostname <$> normalize_metadata df = hostname <$> df ∧
  source_id <$> normalize_metadata df = source_id <$> df ∧
  type <$> normalize_metadata df = Py.lower <$> (type <$> df).
Proof.
  rewrite normalize_metadata_lower_types. unfold lower_types.
  split; [done|]. split; [apply length_map|].
  repeat split; rewrite <-!list_fmap_compose; by apply list_fmap_ext.
Qed.

(** ** Agreement of the two entry points *)

Lemma unmapped_eeg_lower hm (sid : Z) (t n h s : string) :
  unmapped_eeg hm (mkRow sid (Py.lower t) n h s) ↔
  unmapped_eeg hm (mkRow sid t n h s).
Proof. unfold unmapped_eeg. simpl. by rewrite lower_idem. Qed.

Lemma eqs_lower_safe (t lit : string) :
  t = Py.lower t ∨ Py.lower t ≠ lit →
  Py.lower lit = lit →
  Py.eqs (Py.lower t) lit = Py.eqs t lit.
Proof.
  intros [Ht | Hne] Hlit; [by rewrite <-Ht|].
  unfold Py.eqs.
  destruct (String.eqb_spec (Py.lower t) lit) as [E|_]; [done|].
  destruct (String.eqb_spec t lit) as [E|_]; [|done].
  subst t. by rewrite Hlit in Hne.
Qed.

Lemma base_id_lower_safe hm (row : Row) :
  type_case_safe row →
  base_id hm (mkRow (stream_id row) (Py.lower (type row)) (name row)
                    (hostname row) (source_id row))
  = base_id hm row.
Proof.
  intros Hsafe. unfold base_id.
  cbn [stream_id type name hostname source_id].
  rewrite lower_idem.
  assert (Py.eqs (Py.lower (type row)) "marker" = Py.eqs (type row) "marker")
    as ->.
  { apply eqs_lower_safe; [|done]. destruct Hsafe as [?|(?&?&?)]; auto. }
  assert (Py.eqs (Py.lower (type row)) "data" = Py.eqs (type row) "data")
    as ->.
  { apply eqs_lower_safe; [|done]. destruct Hsafe as [?|(?&?&?)]; auto. }
  assert (Py.eqs (Py.lower (type row)) "control"
          = Py.eqs (type row) "control") as ->.
  { apply eqs_lower_safe; [|done]. destruct Hsafe as [?|(?&?&?)]; auto. }
  reflexivity.
Qed.

Lemma apply_rows_lower_safe hm (c : Counter) (df : DataFrame) :
  Forall type_case_safe df →
  apply_rows hm c (lower_types df) = apply_rows hm c df.
Proof.
  intros Hall. revert c. induction Hall as [|row rest Hrow _ IH]; intros c.
  - done.
  - simpl. unfold make_nl_id. rewrite (base_id_lower_safe hm row Hrow).
    destruct (base_id hm row) as [b|e]; simpl; [|done].
    by rewrite IH.
Qed.

(** X6: the two entry points assign the same ids to a table in which every
    type is either in lower case already or not a spelling of 'marker',
    'data' or 'control' (the three types the rules compare exactly). *)
Theorem X6_entry_points_agree_on_ids (df : DataFrame) :
  Forall type_case_safe df →
  _create_nl_ids (normalize_metadata df) = _create_nl_ids df.
Proof.
  intros Hall. rewrite normalize_metadata_lower_types.
  unfold _create_nl_ids. by rewrite apply_rows_lower_safe.
Qed.

Lemma X6_entry_points_agree_on_ids_witness :
  let df := [ mkRow 1 "EEG" "EEG stream" "DESKTOP-3R7C1PH" "ant";
              mkRow 2 "Markers" "keyboard" "neurolive" "kb";
              mkRow 3 "control" "sync" "neurolive" "ctl" ] in
  Forall type_case_safe df ∧
  _create_nl_ids (normalize_metadata df) = _create_nl_ids df.
Proof.
  intros df.
  assert (Forall type_case_safe df) as H.
  { repeat apply Forall_cons_2; [| |left; reflexivity|apply Forall_nil_2];
      right; vm_compute; repeat split; discriminate. }
  split; [exact H | exact (X6_entry_points_agree_on_ids df H)].
Defined.

Lemma lower_types_lookup (df : DataFrame) (i : nat) :
  lower_types df !! i =
  (λ row, mkRow (stream_id row) (Py.lower (type row)) (name row)
                (hostname row) (source_id row)) <$> df !! i.
Proof. unfold lower_types. apply list_lookup_fmap. Qed.

Lemma apply_rows_lower_raise hm (c c' : Counter) (df : DataFrame) (e : exn) :
  apply_rows hm c (lower_types df) = Raise e ↔ apply_rows hm c' df = Raise e.
Proof.
  rewrite !apply_rows_raise_iff. split.
  - intros (i & row' & Hi & Hun & He & Hfirst).
    rewrite lower_types_lookup in Hi.
    destruct (df !! i) as [[sid t n h s]|] eqn:Hrow; [|done].
    injection Hi as <-. simpl in *.
    exists i, (mkRow sid t n h s). split; [done|].
    split; [by apply unmapped_eeg_lower|]. split; [done|].
    intros j [sid' t' n' h' s'] Hj Hrow' Hun'.
    apply (Hfirst j (mkRow sid' (Py.lower t') n' h' s') Hj).
    + by rewrite lower_types_lookup, Hrow'.
    + by apply unmapped_eeg_lower.
  - intros (i & [sid t n h s] & Hi & Hun & He & Hfirst).
    exists i, (mkRow sid (Py.lower t) n h s).
    split; [by rewrite lower_types_lookup, Hi|].
    split; [by apply unmapped_eeg_lower|]. split; [done|].
    intros j row' Hj Hrow' Hun'.
    rewrite lower_types_lookup in Hrow'.
    destruct (df !! j) as [[sid' t' n' h' s']|] eqn:Hrowj; [|done].
    injection Hrow' as <-.
    apply (Hfirst j (mkRow sid' t' n' h' s') Hj); [done|].
    by apply unmapped_eeg_lower.
Qed.

Lemma resolve_streams_raise_iff (df : DataFrame) (b : bool) (e : exn) :
  df ≠ [] →
  resolve_streams df b = Raise e ↔ _create_nl_ids df = Raise e.
Proof.
  intros Hne. unfold resolve_streams.
  destruct (_create_nl_ids df) as [ids|e'] eqn:E; simpl;
    [|split; by intros [= ->]].
  destruct (attach_nl_ids_no_ValueError df ids b Hne E) as [t ->]. by split.
Qed.

Lemma create_nl_ids_not_ValueError (df : DataFrame) (e : exn) :
  _create_nl_ids df = Raise e → e ≠ ValueError.
Proof.
  intros (i & row & _ & _ & -> & _)%create_nl_ids_raise_iff%apply_rows_raise_iff.
  done.
Qed.

Lemma entry_points_raise_alike (df : DataFrame) (b : bool) :
  df ≠ [] →
  (∀ e, resolve_streams df b = Raise e ↔ _create_nl_ids df = Raise e) ∧
  (∀ e, _parse_metadata df b = Raise e ↔ _create_nl_ids df = Raise e) ∧
  resolve_streams df b ≠ Raise ValueError ∧
  _parse_metadata df b ≠ Raise ValueError.
Proof.
  intros Hne.
  assert (normalize_metadata df ≠ []) as Hne'.
  { rewrite normalize_metadata_lower_types. unfold lower_types.
    by intros Hnil%map_eq_nil. }
  assert (∀ e0, _parse_metadata df b = Raise e0 ↔
                _create_nl_ids df = Raise e0) as Hp.
  { intros e0.
    rewrite parse_metadata_normalizes, resolve_streams_raise_iff by done.
    rewrite normalize_metadata_lower_types, !create_nl_ids_raise_iff.
    apply apply_rows_lower_raise. }
  split; [intros e; by apply resolve_streams_raise_iff|].
  split; [done|]. split.
  - intros H%resolve_streams_raise_iff; [|done].
    by apply create_nl_ids_not_ValueError in H.
  - intros H%Hp. by apply create_nl_ids_not_ValueError in H.
Qed.

(** X7: on a table with no rows both [resolve_streams] and
    [_parse_metadata] raise [ValueError] (the assignment of the ids to the
    new column fails).  On a table that has rows they raise on the same
    tables and raise the same exception, the one the classification of
    the table raises, and that is never a [ValueError]: the integrity
    check of [set_index] always passes. *)
Theorem X7_entry_points_raise_alike (b : bool) :
  resolve_streams [] b = Raise ValueError ∧
  _parse_metadata [] b = Raise ValueError ∧
  ∀ df : DataFrame, df ≠ [] →
    (∀ e, resolve_streams df b = Raise e ↔ _create_nl_ids df = Raise e) ∧
    (∀ e, _parse_metadata df b = Raise e ↔ _create_nl_ids df = Raise e) ∧
    resolve_streams df b ≠ Raise ValueError ∧
    _parse_metadata df b ≠ Raise ValueError.
Proof.
  split; [done|]. split; [done|].
  intros df Hne. by apply entry_points_raise_alike.
Qed.

Lemma X7_entry_points_raise_alike_witness :
  let df := [ mkRow 1 "marker" "TimestampStream" "neurolive" "m1";
              mkRow 3 "EEG" "EEG stream" "unknown-host" "ant" ] in
  df ≠ [] ∧
  resolve_streams df true = Raise (KeyError "unknown-host") ∧
  _parse_metadata df true = Raise (KeyError "unknown-host").
Proof.
  intros df.
  assert (df ≠ []) as Hne by discriminate.
  assert (_create_nl_ids df = Raise (KeyError "unknown-host")) as H
    by (vm_compute; reflexivity).
  destruct (proj2 (proj2 (X7_entry_points_raise_alike true)) df Hne)
    as (H1 & H2 & _).
  split; [exact Hne|]. split; [by apply H1 | by apply H2].
Defined.

(** ** The lookup from stream id to id *)

Lemma stream_id_to_nl_id_cons (md : Metadata) (r : string * Row) (sid : Z) :
  _stream_id_to_nl_id (r :: md) sid =
  if decide (stream_id r.2 = sid) then Ok r.1 else _stream_id_to_nl_id md sid.
Proof.
  unfold _stream_id_to_nl_id. rewrite filter_cons.
  by destruct (decide (stream_id r.2 = sid)).
Qed.

Lemma stream_id_to_nl_id_first (md : Metadata) (sid : Z) (id : string) :
  _stream_id_to_nl_id md sid = Ok id ↔
  ∃ (i : nat) (row : Row),
    md !! i = Some (id, row) ∧ stream_id row = sid ∧
    ∀ (j : nat) (r : string * Row),
      (j < i)%nat → md !! j = Some r → stream_id r.2 ≠ sid.
Proof.
  induction md as [|[id0 row0] md IH].
  - split; [done | by intros (i & row & ? & _)].
  - rewrite stream_id_to_nl_id_cons. simpl.
    destruct (decide (stream_id row0 = sid)) as [Hsid|Hsid].
    + split.
      * intros [= <-]. exists 0%nat, row0. split; [done|]. split; [done|].
        intros j r Hj. lia.
      * intros ([|i] & row & Hi & Hrow & Hfirst).
        -- simpl in Hi. by injection Hi as -> _.
        -- destruct (Hfirst 0%nat (id0, row0)); [lia | done | done].
    + rewrite IH. split.
      * intros (i & row & Hi & Hrow & Hfirst).
        exists (S i), row. split; [done|]. split; [done|].
        intros [|j] r Hj Hr; simpl in Hr.
        -- by injection Hr as <-.
        -- apply (Hfirst j r); [lia | done].
      * intros ([|i] & row & Hi & Hrow & Hfirst).
        -- simpl in Hi. injection Hi as _ <-. done.
        -- exists i, row. split; [done|]. split; [done|].
           intros j r Hj Hr. apply (Hfirst (S j) r); [lia | done].
Qed.

(** X8: [_stream_id_to_nl_id] returns an id exactly when some row of the
    metadata table carries the stream id, and the id is the index label of
    the first such row in table order. *)
Theorem X8_lookup_returns_first_match (md : Metadata) (sid : Z)
    (id : string) :
  _stream_id_to_nl_id md sid = Ok id ↔
  ∃ (i : nat) (row : Row),
    md !! i = Some (id, row) ∧ stream_id row = sid ∧
    ∀ (j : nat) (r : string * Row),
      (j < i)%nat → md !! j = Some r → stream_id r.2 ≠ sid.
Proof. apply stream_id_to_nl_id_first. Qed.

(** ** From the parsed metadata table back to the ids *)

Lemma lookup_in_resolved_table (md : Metadata) (ids : list string)
    (df : DataFrame) (i : nat) (id : string) (row : Row) :
  md ≡ₚ zip ids df → NoDup (stream_id <$> df) →
  ids !! i = Some id → df !! i = Some row →
  _stream_id_to_nl_id md (stream_id row) = Ok id.
Proof.
  intros Hperm Hnd Hid Hrow.
  assert ((id, row) ∈ md) as Hin.
  { rewrite Hperm. apply list_elem_of_lookup. exists i.
    by apply lookup_zip_Some. }
  destruct (_stream_id_to_nl_id md (stream_id row)) as [id'|e] eqn:E.
  - apply stream_id_to_nl_id_first in E as (k & row' & Hk & Hsid & _).
    assert ((id', row') ∈ zip ids df) as Hin'.
    { rewrite <-Hperm. apply list_elem_of_lookup. eauto. }
    apply list_elem_of_lookup in Hin' as [j Hj].
    apply lookup_zip_Some in Hj as [Hj1 Hj2].
    assert (j = i) as ->.
    { apply (NoDup_lookup _ _ _ (stream_id row) Hnd).
      - by rewrite list_lookup_fmap, Hj2, <-Hsid.
      - by rewrite list_lookup_fmap, Hrow. }
    congruence.
  - pose proof (stream_id_to_nl_id_raises _ _ _ E) as ->.
    pose proof (proj2 (stream_id_to_nl_id_miss md _) E) as Hmiss.
    by destruct (Hmiss _ Hin).
Qed.

Lemma normalize_metadata_stream_ids (df : DataFrame) :
  stream_id <$> normalize_metadata df = stream_id <$> df.
Proof.
  rewrite normalize_metadata_lower_types. unfold lower_types.
  rewrite <-list_fmap_compose. by apply list_fmap_ext.
Qed.

Lemma parse_metadata_lookup (df : DataFrame) (md : Metadata) :
  _parse_metadata df true = Ok (IndexedByNlId md) →
  NoDup (stream_id <$> df) →
  ∃ ids, _create_nl_ids (normalize_metadata df) = Ok ids ∧
         length ids = length df ∧ NoDup ids ∧
         ∀ (i : nat) (row : Row),
           df !! i = Some row →
           ∃ id, ids !! i = Some id ∧
                 _stream_id_to_nl_id md (stream_id row) = Ok id.
Proof.
  rewrite parse_metadata_normalizes. intros Hparse Hnd.
  apply resolve_streams_indexed in Hparse
    as (t & ids & [= <-] & Hids & Hperm & _ & _ & _).
  destruct (create_nl_ids_distinct _ _ Hids) as [Hlen Hnd'].
  exists ids. split; [done|].
  assert (length (normalize_metadata df) = length df) as Hlen'.
  { rewrite <-(length_fmap stream_id), normalize_metadata_stream_ids.
    apply length_fmap. }
  split; [lia|]. split; [done|]. intros i row Hrow.
  destruct (lookup_lt_is_Some_2 ids i) as [id Hid];
    [apply lookup_lt_Some in Hrow; lia|].
  destruct (lookup_lt_is_Some_2 (normalize_metadata df) i) as [row' Hrow'];
    [apply lookup_lt_Some in Hrow; lia|].
  assert (stream_id row' = stream_id row) as Hsid.
  { assert ((stream_id <$> normalize_metadata df) !! i = Some (stream_id row'))
      as H1 by (by rewrite list_lookup_fmap, Hrow').
    rewrite normalize_metadata_stream_ids, list_lookup_fmap, Hrow in H1.
    by injection H1. }
  exists id. split; [done|]. rewrite <-Hsid.
  apply (lookup_in_resolved_table md ids (normalize_metadata df) i);
    [done| |done|done].
  by rewrite normalize_metadata_stream_ids.
Qed.

(** X9: looking a stream id up in the table [_parse_metadata] built gives
    back the id the classifier assigned to that stream, for every stream of
    a table whose stream ids are pairwise distinct; the lookup never
    raises for such a stream. *)
Theorem X9_parsed_table_lookup_round_trip (df : DataFrame) (md : Metadata) :
  _parse_metadata df true = Ok (IndexedByNlId md) →
  NoDup (stream_id <$> df) →
  ∃ ids, _create_nl_ids (normalize_metadata df) = Ok ids ∧
         length ids = length df ∧ NoDup ids ∧
         ∀ (i : nat) (row : Row),
           df !! i = Some row →
           ∃ id, ids !! i = Some id ∧
                 _stream_id_to_nl_id md (stream_id row) = Ok id.
Proof. apply parse_metadata_lookup. Qed.

Lemma X9_parsed_table_lookup_round_trip_witness :
  let r1 := mkRow 1 "marker" "TimestampStream" "neurolive" "m1" in
  let r2 := mkRow 2 "EEG" "EEG stream" "DESKTOP-3R7C1PH" "ant" in
  let md : Metadata :=
    [ ("eeg-a", mkRow 2 "eeg" "EEG stream" "DESKTOP-3R7C1PH" "ant");
      ("ts-marker", r1) ] in
  _parse_metadata [ r1; r2 ] true = Ok (IndexedByNlId md) ∧
  NoDup (stream_id <$> [ r1; r2 ]) ∧
  ∃ ids, _create_nl_ids (normalize_metadata [ r1; r2 ]) = Ok ids ∧
         length ids = length [ r1; r2 ] ∧ NoDup ids ∧
         ∀ (i : nat) (row : Row),
           [ r1; r2 ] !! i = Some row →
           ∃ id, ids !! i = Some id ∧
                 _stream_id_to_nl_id md (stream_id row) = Ok id.
Proof.
  intros r1 r2 md.
  assert (_parse_metadata [ r1; r2 ] true = Ok (IndexedByNlId md)) as H1
    by (vm_compute; reflexivity).
  assert (NoDup (stream_id <$> [ r1; r2 ])) as H2
    by (apply (bool_decide_unpack _); vm_compute; exact I).
  split; [exact H1|]. split; [exact H2|].
  exact (X9_parsed_table_lookup_round_trip _ _ H1 H2).
Defined.

(** ** Dicts whose stream ids map to one id *)

Section dict_set.
Context {V : Type}.
Implicit Types (d : list (string * V)) (k : string) (v : V).

Lemma dict_set_keys d k v :
  (dict_set d k v).*1 = if decide (k ∈ d.*1) then d.*1 else d.*1 ++ [k].
Proof.
  induction d as [|e d IH].
  - destruct (decide (k ∈ ([] : list (string * V)).*1)) as [Hin|_]; [|done].
    by apply not_elem_of_nil in Hin.
  - change (dict_set (e :: d) k v)
      with (if decide (e.1 = k) then (k, v) :: d else e :: dict_set d k v).
    change ((e :: d).*1) with (e.1 :: d.*1).
    destruct (decide (e.1 = k)) as [->|Hne].
    + clear IH. case_decide as Hout; [reflexivity|]. destruct Hout. left.
    + change ((e :: dict_set d k v).*1) with (e.1 :: (dict_set d k v).*1).
      rewrite IH.
      destruct (decide (k ∈ d.*1)) as [Hin|Hin];
        destruct (decide (k ∈ e.1 :: d.*1)) as [Hin'|Hin']; try done.
      * destruct Hin'. by right.
      * apply elem_of_cons in Hin' as [?|?]; congruence.
Qed.

Lemma dict_set_NoDup d k v : NoDup d.*1 → NoDup (dict_set d k v).*1.
Proof.
  intros Hnd. rewrite dict_set_keys. case_decide as Hin; [done|].
  apply NoDup_app. split; [done|]. split; [|apply NoDup_singleton].
  intros x Hx ->%list_elem_of_singleton. done.
Qed.

Lemma dict_set_length d k v : (length (dict_set d k v) ≤ S (length d))%nat.
Proof.
  rewrite <-!(length_fmap fst), dict_set_keys. case_decide.
  - lia.
  - rewrite length_app. simpl. lia.
Qed.

Lemma dict_set_key_kept d k v k' : k' ∈ d.*1 → k' ∈ (dict_set d k v).*1.
Proof.
  intros Hin. rewrite dict_set_keys. case_decide; [done|].
  apply elem_of_app. by left.
Qed.

Lemma dict_set_key_set d k v : k ∈ (dict_set d k v).*1.
Proof.
  rewrite dict_set_keys. case_decide; [done|].
  apply elem_of_app. right. left.
Qed.

Lemma elem_of_dict_set d k v k' v' :
  NoDup d.*1 → (k', v') ∈ dict_set d k v →
  (k' = k ∧ v' = v) ∨ ((k', v') ∈ d ∧ k' ≠ k).
Proof.
  induction d as [|e d IH]; simpl; intros Hnd Hin.
  - apply list_elem_of_singleton in Hin. injection Hin as -> ->. by left.
  - apply NoDup_cons in Hnd as [Hfresh Hnd].
    destruct (decide (e.1 = k)) as [He|Hne].
    + apply elem_of_cons in Hin as [[= -> ->] | Hin]; [by left|].
      right. split; [by right|]. intros ->. apply Hfresh. rewrite He.
      by apply (list_elem_of_fmap_2 fst _ (k, v')).
    + apply elem_of_cons in Hin as [<- | Hin].
      * right. split; [left | exact Hne].
      * destruct (IH Hnd Hin) as [?|[? ?]]; [by left|].
        right. split; [by right | done].
Qed.
End dict_set.

Section dict_comprehension.
Context {K V : Type}.
Variable g : K → result string.

Lemma dict_comprehension_merges (items : list (K * V))
    (acc d : list (string * V)) :
  dict_comprehension g items acc = Ok d → NoDup acc.*1 →
  NoDup d.*1 ∧
  (length d ≤ length acc + length items)%nat ∧
  (∀ k, k ∈ acc.*1 → k ∈ d.*1) ∧
  (∀ e, e ∈ items → ∃ k, g e.1 = Ok k ∧ k ∈ d.*1) ∧
  (∀ k v, (k, v) ∈ d →
     (∃ l1 sid l2, items = l1 ++ (sid, v) :: l2 ∧ g sid = Ok k ∧
                   ∀ e, e ∈ l2 → g e.1 ≠ Ok k) ∨
     ((k, v) ∈ acc ∧ ∀ e, e ∈ items → g e.1 ≠ Ok k)).
Proof.
  revert acc. induction items as [|[sid0 v0] items IH]; intros acc; simpl.
  - intros [= <-] Hnd. split; [done|]. split; [lia|]. split; [done|].
    split; [intros e He; by apply not_elem_of_nil in He|].
    intros k v Hin. right. split; [done|].
    intros e He. by apply not_elem_of_nil in He.
  - destruct (g sid0) as [k0|e0] eqn:Hg; simpl; [|done].
    intros Hrun Hnd.
    destruct (IH _ Hrun (dict_set_NoDup acc k0 v0 Hnd))
      as (Hnd' & Hlen & Hkeep & Hall & Hlast).
    split; [done|]. split.
    { pose proof (dict_set_length acc k0 v0). lia. }
    split. { intros k Hk. by apply Hkeep, dict_set_key_kept. }
    split.
    { intros e [-> | He]%elem_of_cons; [|by apply Hall].
      exists k0. split; [done|]. apply Hkeep, dict_set_key_set. }
    intros k v Hin. destruct (Hlast k v Hin)
      as [(l1 & sid & l2 & -> & Hsid & Hl2) | [Hacc Hnone]].
    + left. by exists ((sid0, v0) :: l1), sid, l2.
    + apply (elem_of_dict_set acc k0 v0 k v Hnd) in Hacc
        as [[-> ->] | [Hacc Hne]].
      * left. by exists [], sid0, items.
      * right. split; [done|].
        intros e [-> | He]%elem_of_cons; [simpl; congruence | by apply Hnone].
Qed.
End dict_comprehension.

(** X10: remapping a dict always gives a dict with pairwise distinct keys
    and at most as many entries.  Every input stream id has its id among
    the output keys, and each output entry holds the payload of the last
    input entry (in input order) whose stream id maps to its key: entries
    whose stream ids map to one id (which takes a metadata table that
    repeats an index label) are merged, the last one winning. *)
Theorem X10_dict_remap_merges_last_wins {V} (md : Metadata)
    (d : list (Z * V)) (out : Collection string V) :
  _map_stream_ids md (PyDict d) = Ok out →
  ∃ d', out = PyDict d' ∧
        NoDup d'.*1 ∧
        (length d' ≤ length d)%nat ∧
        (∀ e, e ∈ d → ∃ k, _stream_id_to_nl_id md e.1 = Ok k ∧ k ∈ d'.*1) ∧
        (∀ k v, (k, v) ∈ d' →
           ∃ l1 sid l2, d = l1 ++ (sid, v) :: l2 ∧
                        _stream_id_to_nl_id md sid = Ok k ∧
                        ∀ e, e ∈ l2 → _stream_id_to_nl_id md e.1 ≠ Ok k).
Proof.
  simpl.
  destruct (dict_comprehension _ d []) as [d0|e] eqn:E; simpl; [|done].
  intros [= <-]. exists (merge_sort key_le d0).
  destruct (dict_comprehension_merges _ d [] d0 E (NoDup_nil_2))
    as (Hnd & Hlen & _ & Hall & Hlast).
  pose proof (merge_sort_Permutation key_le d0) as Hperm.
  split; [done|]. split; [by rewrite Hperm|].
  split; [rewrite Hperm; simpl in Hlen; lia|]. split.
  - intros e He. destruct (Hall e He) as (k & Hk & Hin).
    exists k. split; [done|]. by rewrite Hperm.
  - intros k v Hin. rewrite Hperm in Hin.
    destruct (Hlast k v Hin) as [? | [Hnil _]]; [done|].
    by apply not_elem_of_nil in Hnil.
Qed.

Lemma X10_dict_remap_merges_last_wins_witness :
  let md : Metadata :=
    [ ("eeg-a", mkRow 1 "eeg" "EEG stream" "DESKTOP-3R7C1PH" "ant");
      ("eeg-b", mkRow 2 "eeg" "EEG stream" "DESKTOP-2TI6RBU" "ant");
      ("ts-marker", mkRow 3 "marker" "TimestampStream" "neurolive" "m1") ] in
  let d : list (Z * string) :=
    [ (3, "marks"); (2, "second"); (1, "first") ] in
  let out :=
    PyDict [ ("eeg-a", "first"); ("eeg-b", "second"); ("ts-marker", "marks") ] in
  _map_stream_ids md (PyDict d) = Ok out ∧
  ∃ d', out = PyDict d' ∧
        NoDup d'.*1 ∧
        (length d' ≤ length d)%nat ∧
        (∀ e, e ∈ d → ∃ k, _stream_id_to_nl_id md e.1 = Ok k ∧ k ∈ d'.*1) ∧
        (∀ k v, (k, v) ∈ d' →
           ∃ l1 sid l2, d = l1 ++ (sid, v) :: l2 ∧
                        _stream_id_to_nl_id md sid = Ok k ∧
                        ∀ e, e ∈ l2 → _stream_id_to_nl_id md e.1 ≠ Ok k).
Proof.
  intros md d out.
  assert (_map_stream_ids md (PyDict d) = Ok out) as H
    by (vm_compute; reflexivity).
  split; [exact H | exact (X10_dict_remap_merges_last_wins md d out H)].
Defined.

(** ** Remapping collections that belong to the parsed table *)

Lemma keys_entries {K V} (data : Collection K V) :
  keys data = (entries data).*1.
Proof.
  destruct data as [|l|d|t|v]; simpl; try done;
    rewrite <-list_fmap_compose; try done.
  by rewrite list_fmap_id.
Qed.

Lemma map_stream_ids_ordered {V} (md : Metadata) (data : Collection Z V)
    (out : Collection string V) :
  _map_stream_ids md data = Ok out → StronglySorted Py.le (keys out).
Proof.
  destruct data as [|l|d|t|v]; simpl.
  - intros [= <-]. constructor.
  - destruct (list_comprehension _ l) as [ids|e]; simpl; [|done].
    intros [= <-]. simpl. apply (StronglySorted_merge_sort Py.le).
  - destruct (dict_comprehension _ d []) as [d'|e]; simpl; [|done].
    intros [= <-]. simpl. apply sorted_by_key_fst.
  - destruct (list_comprehension _ t.*1) as [ids|e]; simpl; [|done].
    intros [= <-]. simpl. apply sorted_by_key_fst.
  - intros [= <-]. constructor.
Qed.

Lemma map_stream_ids_renames {V} (md : Metadata) (data : Collection Z V)
    (f : Z → string) :
  (∀ sid, sid ∈ keys data → _stream_id_to_nl_id md sid = Ok (f sid)) →
  NoDup (f <$> keys data) →
  ∃ out, _map_stream_ids md data = Ok out ∧
         entries out ≡ₚ (λ e, (f e.1, e.2)) <$> entries data.
Proof.
  intros Hg Hnd. destruct data as [|l|d|t|v]; simpl in *.
  - by exists PyNone.
  - rewrite (list_comprehension_ok _ f l Hg). simpl.
    eexists; split; [done|]. simpl.
    rewrite merge_sort_Permutation, <-!list_fmap_compose. done.
  - rewrite (dict_comprehension_ok _ f d [] Hg Hnd). simpl.
    eexists; split; [done|]. simpl.
    rewrite merge_sort_Permutation, <-!list_fmap_compose. done.
  - rewrite (list_comprehension_ok _ f _ Hg). simpl.
    eexists; split; [done|]. simpl.
    rewrite merge_sort_Permutation, zip_fmap_fst_snd.
    rewrite <-!list_fmap_compose. done.
  - by exists (PyOther v).
Qed.

Lemma parsed_table_remap {V} (df : DataFrame) (md : Metadata)
    (data : Collection Z V) :
  _parse_metadata df true = Ok (IndexedByNlId md) →
  NoDup (stream_id <$> df) →
  NoDup (keys data) →
  keys data ⊆ stream_id <$> df →
  ∃ out, _map_stream_ids md data = Ok out ∧
         length (entries out) = length (entries data) ∧
         (entries out).*2 ≡ₚ (entries data).*2 ∧
         NoDup (keys out) ∧
         ordered_by_nl_id out.
Proof.
  intros Hparse Hnd Hkeys Hsub.
  destruct (parse_metadata_lookup df md Hparse Hnd)
    as (ids & _ & Hlen & Hndids & Hlookup).
  set (f := λ sid, match _stream_id_to_nl_id md sid with
                   | Ok id => id
                   | Raise _ => EmptyString
                   end).
  assert (∀ sid, sid ∈ stream_id <$> df →
            ∃ i row id, df !! i = Some row ∧ stream_id row = sid ∧
                        ids !! i = Some id ∧
                        _stream_id_to_nl_id md sid = Ok id ∧ f sid = id)
    as Hpos.
  { intros sid (row & -> & Hrow)%list_elem_of_fmap.
    apply list_elem_of_lookup in Hrow as [i Hi].
    destruct (Hlookup i row Hi) as (id & Hid & Hok).
    exists i, row, id. unfold f. by rewrite Hok. }
  assert (∀ sid, sid ∈ keys data → _stream_id_to_nl_id md sid = Ok (f sid))
    as Hg.
  { intros sid Hin. destruct (Hpos sid (Hsub _ Hin))
      as (i & row & id & _ & _ & _ & Hok & ->). done. }
  assert (NoDup (f <$> keys data)) as Hndf.
  { apply NoDup_fmap_2_strong; [|done]. intros x y Hx Hy Hxy.
    destruct (Hpos x (Hsub _ Hx)) as (i & rx & idx & Hi & <- & Hidx & _ & Hfx).
    destruct (Hpos y (Hsub _ Hy)) as (j & ry & idy & Hj & <- & Hidy & _ & Hfy).
    assert (i = j) as -> by (apply (NoDup_lookup ids i j idx); congruence).
    congruence. }
  destruct (map_stream_ids_renames md data f Hg Hndf) as (out & Hout & Hperm).
  exists out. split; [done|]. split; [by rewrite Hperm, length_fmap|].
  split.
  { rewrite Hperm, <-list_fmap_compose. done. }
  split.
  - rewrite keys_entries, Hperm, <-list_fmap_compose.
    rewrite keys_entries, <-list_fmap_compose in Hndf. done.
  - by eapply map_stream_ids_ordered.
Qed.

(** X11: a collection keyed by pairwise distinct stream ids of the table
    that [_parse_metadata] built (itself with pairwise distinct stream ids)
    is always remapped: the lookup finds every key, no two keys get the
    same id, so no entry is lost or merged and the payloads are the same,
    and the result is in ascending order of its distinct ids. *)
Theorem X11_parsed_table_remaps_its_collections {V} (df : DataFrame)
    (md : Metadata) (data : Collection Z V) :
  _parse_metadata df true = Ok (IndexedByNlId md) →
  NoDup (stream_id <$> df) →
  NoDup (keys data) →
  keys data ⊆ stream_id <$> df →
  ∃ out, _map_stream_ids md data = Ok out ∧
         length (entries out) = length (entries data) ∧
         (entries out).*2 ≡ₚ (entries data).*2 ∧
         NoDup (keys out) ∧
         ordered_by_nl_id out.
Proof. apply parsed_table_remap. Qed.

Lemma X11_parsed_table_remaps_its_collections_witness :
  let r1 := mkRow 1 "marker" "TimestampStream" "neurolive" "m1" in
  let r2 := mkRow 2 "EEG" "EEG stream" "DESKTOP-3R7C1PH" "ant" in
  let md : Metadata :=
    [ ("eeg-a", mkRow 2 "eeg" "EEG stream" "DESKTOP-3R7C1PH" "ant");
      ("ts-marker", r1) ] in
  let data : Collection Z string := PyDict [ (1, "marks"); (2, "samples") ] in
  ∃ out, _map_stream_ids md data = Ok out ∧
         length (entries out) = length (entries data) ∧
         (entries out).*2 ≡ₚ (entries data).*2 ∧
         NoDup (keys out) ∧
         ordered_by_nl_id out.
Proof.
  intros r1 r2 md data.
  apply (X11_parsed_table_remaps_its_collections [ r1; r2 ] md data).
  - vm_compute; reflexivity.
  - apply (bool_decide_unpack _); vm_compute; exact I.
  - apply (bool_decide_unpack _); vm_compute; exact I.
  - apply (bool_decide_unpack _); vm_compute; exact I.
Defined.

(** ** What [load] returns and what it raises *)

Lemma map_stream_ids_raise_inv {V} (md : Metadata) (data : Collection Z V)
    (e : exn) :
  _map_stream_ids md data = Raise e →
  e = IndexError ∧
  ∃ sid, sid ∈ keys data ∧ ∀ r, r ∈ md → stream_id r.2 ≠ sid.
Proof.
  intros H. pose proof (map_stream_ids_raises _ _ _ H) as ->.
  split; [done|].
  assert (∃ sid, sid ∈ keys data ∧
                 _stream_id_to_nl_id md sid = Raise IndexError)
    as (sid & Hin & Hsid).
  { destruct data as [|l|d|t|v]; simpl in *; try done.
    - destruct (list_comprehension _ l) as [ids|e0] eqn:E; simpl in H;
        [done|]. injection H as ->.
      by apply list_comprehension_raise_inv in E.
    - destruct (dict_comprehension _ d []) as [d'|e0] eqn:E; simpl in H;
        [done|]. injection H as ->.
      by apply dict_comprehension_raise_inv in E.
    - destruct (list_comprehension _ t.*1) as [ids|e0] eqn:E; simpl in H;
        [done|]. injection H as ->.
      by apply list_comprehension_raise_inv in E. }
  exists sid. split; [done|]. by apply stream_id_to_nl_id_miss.
Qed.

Lemma remap_all_inv {V} (self : Xdf Z V) :
  match remap_all self with
  | Ok self' =>
      _metadata self' = _metadata self ∧
      Forall2 (λ c c', _map_stream_ids (_metadata self) c = Ok c')
              (stream_collections self) (stream_collections self')
  | Raise e =>
      ∃ data, data ∈ stream_collections self ∧
              _map_stream_ids (_metadata self) data = Raise e
  end.
Proof.
  unfold remap_all, stream_collections.
  destruct (_map_stream_ids _ (_loaded_stream_ids self)) as [x1|e1] eqn:E1;
    simpl; [|exists (_loaded_stream_ids self); split; [set_solver | done]].
  destruct (_map_stream_ids _ (_channel_metadata self)) as [x2|e2] eqn:E2;
    simpl; [|exists (_channel_metadata self); split; [set_solver | done]].
  destruct (_map_stream_ids _ (_footer self)) as [x3|e3] eqn:E3;
    simpl; [|exists (_footer self); split; [set_solver | done]].
  destruct (_map_stream_ids _ (_clock_offsets self)) as [x4|e4] eqn:E4;
    simpl; [|exists (_clock_offsets self); split; [set_solver | done]].
  destruct (_map_stream_ids _ (_time_series self)) as [x5|e5] eqn:E5;
    simpl; [|exists (_time_series self); split; [set_solver | done]].
  destruct (_map_stream_ids _ (_time_stamps self)) as [x6|e6] eqn:E6;
    simpl; [|exists (_time_stamps self); split; [set_solver | done]].
  split; [done|]. repeat (constructor; [done|]). constructor.
Qed.

(** X12: when [load] returns, either the loader returned and nothing was
    printed, the metadata table is the loader's and each of the six
    collections is the remap of the loader's, in ascending order of its
    ids; or the loader raised one of the two handled exceptions, which was
    printed, and the object is as the loader left it. *)
Theorem X12_load_returns {V} (_load : Xdf string V → LoadArgs → Loaded V)
    (self self' : Xdf string V) (args : LoadArgs) (printed : list exn) :
  load _load self args = Returns self' printed →
  (∃ loaded, _load self args = LoadReturns loaded ∧
             printed = [] ∧
             _metadata self' = _metadata loaded ∧
             Forall2 (λ c c', _map_stream_ids (_metadata loaded) c = Ok c')
                     (stream_collections loaded) (stream_collections self') ∧
             Forall ordered_by_nl_id (stream_collections self')) ∨
  (∃ e, _load self args = LoadRaises e self' ∧
        recoverable e = true ∧ printed = [e]).
Proof.
  unfold load. destruct (_load self args) as [loaded|e s] eqn:Hload.
  - pose proof (remap_all_inv loaded) as Hinv.
    destruct (remap_all loaded) as [s'|e]; [|done].
    intros [= <- <-]. left. exists loaded. destruct Hinv as [Hmd Hall].
    split; [done|]. split; [done|]. split; [done|]. split; [done|].
    apply Forall_forall. intros c' Hc'.
    apply list_elem_of_lookup in Hc' as [i Hi].
    destruct (Forall2_lookup_r _ _ _ _ _ Hall Hi) as (c & _ & Hc).
    by eapply map_stream_ids_ordered.
  - destruct e; try done; intros [= <- <-]; right; eauto.
Qed.

Lemma X12_load_returns_witness :
  let md : Metadata :=
    [ ("eeg-a", mkRow 2 "eeg" "EEG stream" "DESKTOP-3R7C1PH" "ant");
      ("ts-marker", mkRow 1 "marker" "TimestampStream" "neurolive" "m1") ] in
  let loaded : Xdf Z string :=
    mkXdf md (PyList [ 1; 2 ]) PyNone PyNone PyNone
          (PyDict [ (1, "marks"); (2, "samples") ]) PyNone in
  let loader (self : Xdf string string) (args : LoadArgs) :=
    LoadReturns loaded in
  let self : Xdf string string :=
    mkXdf [] PyNone PyNone PyNone PyNone PyNone PyNone in
  let self' : Xdf string string :=
    mkXdf md (PyList [ "eeg-a"; "ts-marker" ]) PyNone PyNone PyNone
          (PyDict [ ("eeg-a", "samples"); ("ts-marker", "marks") ]) PyNone in
  let args := mkLoadArgs [] "unit" "label" true true true in
  load loader self args = Returns self' [] ∧
  Forall ordered_by_nl_id (stream_collections self').
Proof.
  intros md loaded loader self self' args.
  assert (load loader self args = Returns self' []) as H
    by (vm_compute; reflexivity).
  split; [exact H|].
  destruct (X12_load_returns loader self self' args [] H)
    as [(l & _ & _ & _ & _ & Hord) | (e & _ & _ & Hp)];
    [exact Hord | discriminate Hp].
Defined.

(** X13: an exception leaves [load] in two cases only: the loader raised
    it and it is not one of the two handled ones, or the loader returned
    and it is the [IndexError] of a stream id, in one of the six
    collections, that no row of the metadata table carries. *)
Theorem X13_load_raises {V} (_load : Xdf string V → LoadArgs → Loaded V)
    (self : Xdf string V) (args : LoadArgs) (e : exn) :
  load _load self args = Raises e →
  (∃ s, _load self args = LoadRaises e s ∧ recoverable e = false) ∨
  (e = IndexError ∧
   ∃ loaded data sid,
     _load self args = LoadReturns loaded ∧
     data ∈ stream_collections loaded ∧
     sid ∈ keys data ∧
     ∀ r, r ∈ _metadata loaded → stream_id r.2 ≠ sid).
Proof.
  unfold load. destruct (_load self args) as [loaded|e0 s] eqn:Hload.
  - pose proof (remap_all_inv loaded) as Hinv.
    destruct (remap_all loaded) as [s'|e0]; [done|].
    intros [= <-]. right. destruct Hinv as (data & Hin & Hraise).
    apply map_stream_ids_raise_inv in Hraise as (-> & sid & Hsid & Hmiss).
    split; [done|]. by exists loaded, data, sid.
  - destruct e0; try done; intros [= <-]; left; eauto.
Qed.

Lemma X13_load_raises_witness :
  let loader (self : Xdf string string) (args : LoadArgs) :=
    LoadRaises (OtherError "file not found") self in
  let self : Xdf string string :=
    mkXdf [] PyNone PyNone PyNone PyNone PyNone PyNone in
  let args := mkLoadArgs [] "unit" "label" true true true in
  load loader self args = Raises (OtherError "file not found") ∧
  ∃ s, loader self args = LoadRaises (OtherError "file not found") s.
Proof.
  intros loader self args.
  assert (load loader self args = Raises (OtherError "file not found")) as H
    by reflexivity.
  split; [exact H|].
  destruct (X13_load_raises loader self args _ H)
    as [(s & Hs & _) | (He & _)]; [by exists s | discriminate He].
Defined.

(** ** Channel tables *)

Local Arguments Py.eqs : simpl never.

Lemma eqs_true (a b : string) : Py.eqs a b = true ↔ a = b.
Proof. apply String.eqb_eq. Qed.

Lemma eqs_false (a b : string) : Py.eqs a b = false ↔ a ≠ b.
Proof. apply String.eqb_neq. Qed.

Lemma get_column_absent (col : string) (df : ChannelFrame) :
  has_column col df = false → get_column col df = [].
Proof.
  induction df as [|[c cells] df IH]; simpl; [done|].
  intros [Hc Hdf]%orb_false_elim. simpl in Hc. rewrite Hc. by apply IH.
Qed.

Lemma get_column_app (col : string) (df more : ChannelFrame) :
  get_column col (df ++ more) =
  if has_column col df then get_column col df else get_column col more.
Proof.
  induction df as [|[c cells] df IH]; simpl; [done|].
  destruct (Py.eqs c col); simpl; [done | apply IH].
Qed.

Lemma get_column_frame_replace mapper (col : string) (df : ChannelFrame) :
  get_column col (frame_replace mapper df)
  = map (replace_cell mapper col) (get_column col df).
Proof.
  induction df as [|[c cells] df IH]; simpl; [done|].
  destruct (Py.eqs c col) eqn:E; [|apply IH].
  apply eqs_true in E. by subst c.
Qed.

Lemma replace_cell_other_column (col v : string) :
  col ≠ "label" → col ≠ "type" →
  replace_cell channel_metadata_mapper col v = v.
Proof.
  intros Hl Ht. unfold replace_cell. rewrite channel_column_table.
  assert (Py.eqs "label" col = false) as -> by (by apply eqs_false).
  assert (Py.eqs "type" col = false) as -> by (by apply eqs_false).
  done.
Qed.

Lemma map_replace_other_column (col : string) (cells : list string) :
  col ≠ "label" → col ≠ "type" →
  map (replace_cell channel_metadata_mapper col) cells = cells.
Proof.
  intros Hl Ht. induction cells as [|v cells IH]; simpl; [done|].
  by rewrite replace_cell_other_column, IH.
Qed.

(** X14: a channel table that has an index column and no label column
    (the AntNeuro app) leaves normalisation with a label column, made of
    the cells of the index column rewritten by the label table; the index
    column itself is kept as it was. *)
Theorem X14_labels_from_index (df : ChannelFrame) :
  has_column "index" df = true → has_column "label" df = false →
  has_column "label" (normalize_channel_frame df) = true ∧
  get_column "label" (normalize_channel_frame df)
    = map (replace_cell channel_metadata_mapper "label")
          (get_column "index" df) ∧
  get_column "index" (normalize_channel_frame df) = get_column "index" df.
Proof.
  intros Hidx Hlab. unfold normalize_channel_frame, label_from_index.
  rewrite Hidx, Hlab. simpl andb. cbv iota.
  rewrite has_column_frame_replace, !get_column_frame_replace.
  rewrite !get_column_app, Hidx, Hlab.
  split; [|split].
  - unfold has_column. rewrite existsb_app. apply orb_true_r.
  - reflexivity.
  - by apply map_replace_other_column.
Qed.

Lemma X14_labels_from_index_witness :
  let df : ChannelFrame :=
    [ ("index", [ "0"; "1"; "33"; "99" ]);
      ("unit", [ "uV"; "uV"; "uV"; "uV" ]) ] in
  get_column "label" (normalize_channel_frame df)
    = [ "Fp1"; "Fpz"; "trigger"; "99" ] ∧
  get_column "index" (normalize_channel_frame df) = get_column "index" df.
Proof.
  intros df.
  destruct (X14_labels_from_index df eq_refl eq_refl) as (_ & H2 & H3).
  split; [|exact H3]. rewrite H2. vm_compute. reflexivity.
Defined.

Lemma has_column_app (col : string) (df more : ChannelFrame) :
  has_column col (df ++ more) = has_column col df || has_column col more.
Proof. unfold has_column. apply existsb_app. Qed.

Lemma normalize_channel_frame_other_column (df : ChannelFrame)
    (col : string) :
  col ≠ "label" → col ≠ "type" →
  get_column col (normalize_channel_frame df) = get_column col df ∧
  has_column col (normalize_channel_frame df) = has_column col df.
Proof.
  intros Hl Ht. unfold normalize_channel_frame.
  rewrite get_column_frame_replace, has_column_frame_replace.
  rewrite map_replace_other_column by done.
  unfold label_from_index.
  destruct (has_column "index" df && negb (has_column "label" df));
    [|done].
  assert (Py.eqs "label" col = false) as Hne by (apply eqs_false; congruence).
  rewrite get_column_app, has_column_app.
  assert (has_column col [("label"%string, get_column "index" df)] = false)
    as Hnew by (unfold has_column; simpl; by rewrite Hne).
  assert (get_column col [("label"%string, get_column "index" df)] = [])
    as Hcells by (simpl; by rewrite Hne).
  rewrite Hnew, Hcells, orb_false_r. split; [|done].
  destruct (has_column col df) eqn:E; [done|].
  by rewrite get_column_absent.
Qed.

(** X15: [_parse_channel_metadata] passes [None] on, keeps the stream ids
    of the dict and their order, and in every channel table leaves each
    column other than 'label' and 'type' as it was: none is added,
    dropped or rewritten. *)
Theorem X15_channel_metadata_untouched_columns :
  _parse_channel_metadata None = None ∧
  ∀ d : list (Z * ChannelFrame),
    ∃ d', _parse_channel_metadata (Some d) = Some d' ∧
          map fst d' = map fst d ∧
          Forall2 (λ e e',
                     ∀ col : string, col ≠ "label" → col ≠ "type" →
                       get_column col e'.2 = get_column col e.2 ∧
                       has_column col e'.2 = has_column col e.2) d d'.
Proof.
  split; [done|]. intros d. eexists. split; [reflexivity|]. split.
  - rewrite map_map. by apply map_ext.
  - induction d as [|e d IH]; simpl; constructor; [|done].
    intros col Hl Ht. by apply normalize_channel_frame_other_column.
Qed.

(** ** Ids built from the stream id *)

Lemma digit_prefix_split (d1 d2 s1 s2 : string) :
  all_digits d1 = true → all_digits d2 = true →
  head_not_digit s1 = true → head_not_digit s2 = true →
  d1 +:+ s1 = d2 +:+ s2 → d1 = d2 ∧ s1 = s2.
Proof.
  revert d2. induction d1 as [|c d1 IH]; intros [|c' d2] H1 H2 Hs1 Hs2 E;
    simpl in *.
  - done.
  - subst s1. simpl in Hs1. apply andb_prop in H2 as [H2 _].
    by rewrite H2 in Hs1.
  - subst s2. simpl in Hs2. apply andb_prop in H1 as [H1 _].
    by rewrite H1 in Hs2.
  - injection E as -> E.
    apply andb_prop in H1 as [_ H1]. apply andb_prop in H2 as [_ H2].
    destruct (IH d2 H1 H2 Hs1 Hs2 E) as [-> ->]. done.
Qed.

Lemma to_int_cases (z : Z) :
  ∃ u, u ≠ Nil ∧ (Z.to_int z = Pos u ∨ Z.to_int z = Neg u).
Proof.
  destruct z as [|p|p]; simpl.
  - exists (D0 Nil). split; [done | by left].
  - exists (Pos.to_uint p).
    split; [apply DecimalPos.Unsigned.to_uint_nonnil | by left].
  - exists (Pos.to_uint p).
    split; [apply DecimalPos.Unsigned.to_uint_nonnil | by right].
Qed.

Lemma uint_string_head (u : uint) :
  u ≠ Nil →
  ∃ c rest, NilEmpty.string_of_uint u = String c rest ∧ is_digit c = true.
Proof. destruct u; [done|..]; intros _; simpl; eauto. Qed.

Lemma str_starts_numeric (z : Z) (s : string) :
  starts_numeric (Py.str z +:+ s) = true.
Proof.
  unfold Py.str. destruct (to_int_cases z) as (u & Hu & [-> | ->]); simpl.
  - destruct (uint_string_head u Hu) as (c & rest & -> & Hc). simpl.
    by rewrite Hc.
  - done.
Qed.

Lemma str_app_inj (z1 z2 : Z) (s1 s2 : string) :
  head_not_digit s1 = true → head_not_digit s2 = true →
  Py.str z1 +:+ s1 = Py.str z2 +:+ s2 → z1 = z2.
Proof.
  intros Hs1 Hs2 E. apply DecimalZ.to_int_inj. unfold Py.str in E.
  destruct (to_int_cases z1) as (u1 & Hu1 & [H1 | H1]);
  destruct (to_int_cases z2) as (u2 & Hu2 & [H2 | H2]);
    rewrite H1, H2 in *; simpl in E.
  - apply digit_prefix_split in E as [E _];
      [|apply all_digits_uint..|done|done].
    f_equal. pose proof (NilEmpty.usu u1) as Hx. rewrite E in Hx.
    rewrite NilEmpty.usu in Hx. by injection Hx.
  - destruct (uint_string_head u1 Hu1) as (c & rest & Hh & Hc).
    rewrite Hh in E. simpl in E. injection E as -> _. done.
  - destruct (uint_string_head u2 Hu2) as (c & rest & Hh & Hc).
    rewrite Hh in E. simpl in E. injection E as <- _. done.
  - injection E as E.
    apply digit_prefix_split in E as [E _];
      [|apply all_digits_uint..|done|done].
    f_equal. pose proof (NilEmpty.usu u1) as Hx. rewrite E in Hx.
    rewrite NilEmpty.usu in Hx. by injection Hx.
Qed.

Lemma append_empty_r (s : string) : s +:+ EmptyString = s.
Proof. induction s as [|c s IH]; simpl; congruence. Qed.

Lemma id_keyed_base_suffix (row : Row) (b : string) :
  id_keyed_base row b →
  ∃ s, head_not_digit s = true ∧ b = Py.str (stream_id row) +:+ s.
Proof.
  intros [-> | [-> | ->]];
    [exists EmptyString | exists "-markers"%string | exists "-relay"%string];
    (split; [done|]); [by rewrite append_empty_r | done | done].
Qed.

Lemma id_keyed_base_inj (row row' : Row) (b : string) :
  id_keyed_base row b → id_keyed_base row' b →
  stream_id row' = stream_id row.
Proof.
  intros (s & Hs & ->)%id_keyed_base_suffix (s' & Hs' & E)%id_keyed_base_suffix.
  exact (str_app_inj _ _ _ _ Hs' Hs (eq_sym E)).
Qed.

(** Device names of the table do not begin like a numeral. *)
Lemma hostname_device_names_alpha :
  forallb (λ e, negb (starts_numeric e.2)) hostname_device_entries = true.
Proof. vm_compute. reflexivity. Qed.

Lemma hostname_lookup_alpha (h dev : string) :
  hostname_device_mapper !! h = Some dev → starts_numeric dev = false.
Proof.
  intros H. apply elem_of_list_to_map_2 in H.
  pose proof hostname_device_names_alpha as Hall.
  rewrite forallb_forall in Hall.
  apply list_elem_of_In, Hall in H. by apply negb_true_iff in H.
Qed.

(** The rule chain gives a base id built from the row's own stream id, or
    one that does not begin like a numeral. *)
Lemma base_id_shape (row : Row) (b : string) :
  base_id hostname_device_mapper row = Ok b →
  id_keyed_base row b ∨ starts_numeric b = false.
Proof.
  unfold base_id, id_keyed_base. intros H.
  repeat match type of H with
  | (if ?c then _ else _) = _ => destruct c
  | match ?o with Some _ => _ | None => _ end = _ => destruct o eqn:?
  end;
  try discriminate H; injection H as <-; auto.
  right. by eapply hostname_lookup_alpha.
Qed.

Lemma same_id_keyed_base (row row' : Row) (b : string) :
  id_keyed_base row b →
  base_id hostname_device_mapper row' = Ok b →
  stream_id row' = stream_id row.
Proof.
  intros Hb Hb'. destruct (base_id_shape _ _ Hb') as [Hk | Hn].
  - by eapply id_keyed_base_inj.
  - assert (starts_numeric b = true) as Ht; [|congruence].
    apply id_keyed_base_suffix in Hb as (s & _ & ->).
    apply str_starts_numeric.
Qed.

Lemma occurrences_zero_or_elem hm b (df : DataFrame) :
  occurrences hm b df = 0%nat ∨ ∃ row, row ∈ df ∧ base_id hm row = Ok b.
Proof.
  induction df as [|row df IH]; [by left|].
  rewrite occurrences_cons. case_decide as Hb.
  - right. exists row. split; [left | done].
  - destruct IH as [-> | (row' & Hin & Hrow')]; [by left|].
    right. exists row'. split; [by right | done].
Qed.

Lemma occurrences_id_keyed (row : Row) (b : string) (df : DataFrame) :
  NoDup (stream_id <$> df) → id_keyed_base row b →
  (occurrences hostname_device_mapper b df ≤ 1)%nat.
Proof.
  intros Hnd Hb. induction df as [|r df IH]; [unfold occurrences; simpl; lia|].
  csimpl in Hnd. apply NoDup_cons in Hnd as [Hfresh Hnd].
  rewrite occurrences_cons. case_decide as Hr; [|by apply IH].
  destruct (occurrences_zero_or_elem hostname_device_mapper b df)
    as [-> | (r' & Hin & Hr')]; [lia|].
  destruct Hfresh.
  rewrite (same_id_keyed_base row r b Hb Hr).
  rewrite <-(same_id_keyed_base row r' b Hb Hr').
  by apply list_elem_of_fmap_2.
Qed.

(** X16: in a table with pairwise distinct stream ids, a stream that falls
    to the default, the 'markers' or the '_relay_' rule is named by its own
    stream id ([str(id)], [str(id)-markers], [str(id)-relay]) and never
    gets a collision suffix, whatever the other streams are. *)
Theorem X16_id_keyed_names_never_suffixed (df : DataFrame)
    (ids : list string) (i : nat) (row : Row) (b : string) :
  _create_nl_ids df = Ok ids →
  NoDup (stream_id <$> df) →
  df !! i = Some row →
  base_id hostname_device_mapper row = Ok b →
  id_keyed_base row b →
  ids !! i = Some b.
Proof.
  intros [c' Hrun]%create_nl_ids_inv Hnd Hi Hb Hkey.
  rewrite (apply_rows_lookup _ _ _ _ _ _ _ _ Hrun Hi Hb).
  rewrite counter_get_empty. simpl.
  pose proof (occurrences_take_S _ _ _ _ _ Hi Hb) as Hge.
  pose proof (occurrences_take_mono hostname_device_mapper b df
                (S i) (length df)) as Hmono.
  rewrite firstn_all in Hmono.
  pose proof (occurrences_id_keyed row b df Hnd Hkey) as Hle.
  assert (occurrences hostname_device_mapper b (take (S i) df) = 1%nat)
    as ->.
  { apply lookup_lt_Some in Hi. lia. }
  done.
Qed.

Lemma X16_id_keyed_names_never_suffixed_witness :
  let df := [ mkRow 7 "markers" "keyboard" "h1" "kb";
              mkRow 12 "Markers" "mouse" "h2" "ms";
              mkRow 14 "audio" "_relay_mic" "h3" "mic" ] in
  let ids := [ "7-markers"; "12-markers"; "14-relay" ] in
  _create_nl_ids df = Ok ids ∧ ids !! 2%nat = Some "14-relay".
Proof.
  intros df ids.
  assert (_create_nl_ids df = Ok ids) as H by (vm_compute; reflexivity).
  split; [exact H|].
  refine (X16_id_keyed_names_never_suffixed df ids 2
            (mkRow 14 "audio" "_relay_mic" "h3" "mic") "14-relay"
            H _ eq_refl _ _).
  - apply (bool_decide_unpack _); vm_compute; exact I.
  - vm_compute; reflexivity.
  - right. right. vm_compute; reflexivity.
Defined.

(** ** Lists and tables with repeated ids *)

Lemma list_comprehension_inv {A B} (g : A → result B) (l : list A)
    (ys : list B) :
  list_comprehension g l = Ok ys → Forall2 (λ x y, g x = Ok y) l ys.
Proof.
  revert ys. induction l as [|x l IH]; intros ys; simpl.
  - intros [= <-]. constructor.
  - destruct (g x) as [y|e] eqn:Hx; simpl; [|done].
    destruct (list_comprehension g l) as [ys'|e]; simpl; [|done].
    intros [= <-]. constructor; [done | by apply IH].
Qed.

(** X17: unlike a dict, a list of stream ids and a table indexed by stream
    id keep every entry when they are remapped, also when several stream
    ids map to one id: the result has as many entries as the input, the
    ids are the ids of the input stream ids and the rows of a table are
    the rows of the input. *)
Theorem X17_list_and_table_remap_keep_entries {V} (md : Metadata)
    (data : Collection Z V) (out : Collection string V) :
  (∃ l, data = PyList l) ∨ (∃ t, data = PyFrame t) →
  _map_stream_ids md data = Ok out →
  ∃ ids, Forall2 (λ sid id, _stream_id_to_nl_id md sid = Ok id)
                 (keys data) ids ∧
         keys out ≡ₚ ids ∧
         (entries out).*2 ≡ₚ (entries data).*2 ∧
         length (entries out) = length (entries data).
Proof.
  intros [[l ->] | [t ->]]; simpl.
  - destruct (list_comprehension _ l) as [ids|e] eqn:E; simpl; [|done].
    intros [= <-]. exists ids. simpl.
    pose proof (list_comprehension_inv _ _ _ E) as Hall.
    pose proof (merge_sort_Permutation Py.le ids) as Hperm.
    split; [done|]. split; [done|]. split.
    + rewrite <-!list_fmap_compose.
      apply Forall2_length in Hall.
      rewrite (const_fmap _ (merge_sort Py.le ids) (None : option V)) by done.
      rewrite (const_fmap _ l (None : option V)) by done.
      by rewrite Hperm, Hall.
    + rewrite !length_fmap, Hperm. symmetry. by eapply Forall2_length.
  - destruct (list_comprehension _ t.*1) as [ids|e] eqn:E; simpl; [|done].
    intros [= <-]. exists ids. simpl.
    pose proof (list_comprehension_inv _ _ _ E) as Hall.
    pose proof (merge_sort_Permutation key_le (zip ids t.*2)) as Hperm.
    assert (length ids = length t.*2) as Hlen.
    { apply Forall2_length in Hall. by rewrite <-Hall, !length_fmap. }
    split; [done|]. split; [by rewrite Hperm, fst_zip_eq|]. split.
    + rewrite <-!list_fmap_compose.
      rewrite Hperm.
      rewrite (list_fmap_compose snd Some (zip ids t.*2)).
      rewrite snd_zip_eq by done. by rewrite <-list_fmap_compose.
    + rewrite !length_fmap, Hperm, length_zip, Hlen, length_fmap. lia.
Qed.

Lemma X17_list_and_table_remap_keep_entries_witness :
  let md : Metadata :=
    [ ("eeg-a", mkRow 2 "eeg" "EEG stream" "DESKTOP-3R7C1PH" "ant");
      ("ts-marker", mkRow 1 "marker" "TimestampStream" "neurolive" "m1") ] in
  let data : Collection Z string := PyList [ 1; 2; 1 ] in
  let out : Collection string string :=
    PyList [ "eeg-a"; "ts-marker"; "ts-marker" ] in
  _map_stream_ids md data = Ok out ∧
  length (entries out) = length (entries data).
Proof.
  intros md data out.
  assert (_map_stream_ids md data = Ok out) as H by (vm_compute; reflexivity).
  split; [exact H|].
  destruct (X17_list_and_table_remap_keep_entries md data out
              (or_introl (ex_intro _ [ 1; 2; 1 ] eq_refl)) H)
    as (ids & _ & _ & _ & Hlen).
  exact Hlen.
Defined.
